(** * DarkHorizon: plate-carree to Web-Mercator row remapping

    A shallow embedding of [scripts/download_lp.py] ([_merc_y] and
    [reproject]) and the properties of its row-index map.

    Number model.  Python [float] and NumPy [float64] values are
    modelled twice.

    In the exact model a finite double is a real number, the libm
    functions are the real functions of the Standard Library, and the
    non-finite doubles ([inf], [-inf], [nan]) that NumPy produces instead
    of raising are kept as separate values.  Rounding error of binary64
    is not part of this model: a statement on the values of the row-index
    map that is proved in it is a statement on the program run in exact
    arithmetic, and is marked as such.

    Module [Binary64] evaluates the same lines with IEEE 754 doubles.
    The functions that have no specification ([tan], [log], [exp],
    [arctan], the rounding of [np.round] and the conversion to int32)
    are parameters there, so what is proved in it holds of the program
    whatever these functions compute, or under the stated values of
    these functions at the points involved. *)

From Stdlib Require Import String Bool.
From Stdlib.Strings Require Import Byte.
From Stdlib Require Import Reals Lra Lia ZArith List.
From Stdlib Require Import PrimFloat SpecFloat FloatOps.
From Stdlib Require FloatAxioms Uint63.
Import ListNotations.

Open Scope string_scope.
Open Scope list_scope.
Open Scope R_scope.

(** ** Python outcomes and effects *)

(** A Python call either returns a value or raises an exception, which is
    identified by its class name. *)
Inductive result (A : Type) : Type :=
| Ok (a : A)
| Raise (exc : string).
Arguments Ok {A} a.
Arguments Raise {A} exc.

(** ** NumPy arrays of pixels and PIL images *)

(** [np.array(img)]: shape [(H, W)] for palette images and [(H, W, C)]
    for direct colour.  The array is kept as its list of rows; a row is
    its samples in C order, and [row_shape] is [[W]] or [[W; C]]. *)
Record ndarray : Type := {
  row_shape : list nat;
  rows : list (list Z)
}.

Definition shape (a : ndarray) : list nat := length (rows a) :: row_shape a.

(** [img.info["transparency"]] of a PNG: a palette index, or the alpha
    table of the [tRNS] chunk. *)
Inductive transparency_t : Type :=
| TrIndex (i : Z)
| TrAlpha (alpha : list Z).

Record Image : Type := {
  mode : string;
  pixels : ndarray;
  palette : option (list Z);
  info_transparency : option transparency_t
}.

(** What [reproject] does to the outside world, in program order. *)
Inductive event : Type :=
| EvOpen                       (* Image.open(src_path) *)
| EvArray                      (* np.array(img): the pixel array is read *)
| EvMercY (lat_deg : R)        (* a call _merc_y(lat_deg) *)
| EvIndex (y_src : list Z)     (* arr[y_src] *)
| EvSave (out_img : Image).    (* out_img.save(dst_path, ...) *)

Definition trace := list event.

(** Computations that log events and may raise. *)
Definition M (A : Type) : Type := trace -> trace * result A.

Definition ret {A} (a : A) : M A := fun t => (t, Ok a).

Definition bind {A B} (m : M A) (k : A -> M B) : M B :=
  fun t =>
    match m t with
    | (t', Ok a) => k a t'
    | (t', Raise e) => (t', Raise e)
    end.

Definition emit (e : event) : M unit := fun t => (t ++ [e], Ok tt).

Definition lift {A} (r : result A) : M A := fun t => (t, r).

Notation "x <- m ;; k" := (bind m (fun x => k))
  (at level 61, m at next level, right associativity).
Notation "m ;;; k" := (bind m (fun _ => k))
  (at level 61, right associativity).

Definition run {A} (m : M A) : trace * result A := m [].

(** ** The [math] module on exact reals *)

Definition math_pi : R := PI.

(** [math.radians(x)] is [x * (pi / 180)]. *)
Definition math_radians (x : R) : R := x * (math_pi / 180).

(** [math.tan].  No double is an odd multiple of pi/2, so Python never
    evaluates the tangent at a pole; the real tangent is used as it is and
    no result below depends on its value where the cosine vanishes. *)
Definition math_tan (x : R) : R := tan x.

(** [math.log] raises [ValueError] (math domain error) unless [x > 0]. *)
Definition math_log (x : R) : result R :=
  if Rlt_dec 0 x then Ok (ln x) else Raise "ValueError".

(** [_merc_y], line 145, in exact arithmetic.  Strictly inside (-90, 90)
    the argument of the logarithm is positive here and in binary64 alike.
    At 90 and just above it the program receives the double nearest to
    pi/2, whose tangent is large and positive, and returns; the exact
    value has no counterpart there.  [Binary64._merc_y] is the same line
    on doubles. *)
Definition _merc_y (lat_deg : R) : result R :=
  math_log (math_tan (math_pi / 4 + math_radians lat_deg / 2)).

(** ** NumPy [float64] elements *)

Inductive f64 : Type :=
| Fin (r : R)
| Inf (negative : bool)
| NaN.

(** [x / d] for an array element [x] and a Python scalar [d]; NumPy
    divides by zero without raising. *)
Definition np_true_divide (x : f64) (d : R) : f64 :=
  match x with
  | Fin r =>
      if Req_EM_T d 0 then
        if Rlt_dec 0 r then Inf false
        else if Rlt_dec r 0 then Inf true
        else NaN
      else Fin (r / d)
  | Inf s => if Rlt_dec d 0 then Inf (negb s) else Inf s
  | NaN => NaN
  end.

(** [x * c]. *)
Definition np_multiply (x : f64) (c : R) : f64 :=
  match x with
  | Fin r => Fin (r * c)
  | Inf s =>
      if Rlt_dec 0 c then Inf s
      else if Rlt_dec c 0 then Inf (negb s)
      else NaN
  | NaN => NaN
  end.

(** [c - x]. *)
Definition np_rsub (c : R) (x : f64) : f64 :=
  match x with
  | Fin r => Fin (c - r)
  | Inf s => Inf (negb s)
  | NaN => NaN
  end.

(** [x - c]. *)
Definition np_sub (x : f64) (c : R) : f64 :=
  match x with
  | Fin r => Fin (r - c)
  | Inf s => Inf s
  | NaN => NaN
  end.

Definition np_exp (x : f64) : f64 :=
  match x with
  | Fin r => Fin (exp r)
  | Inf false => Inf false
  | Inf true => Fin 0
  | NaN => NaN
  end.

Definition np_arctan (x : f64) : f64 :=
  match x with
  | Fin r => Fin (atan r)
  | Inf false => Fin (PI / 2)
  | Inf true => Fin (- (PI / 2))
  | NaN => NaN
  end.

(** [np.degrees(x)] is [x * (180 / pi)]. *)
Definition np_degrees (x : f64) : f64 := np_multiply x (180 / PI).

(** Round half to even, the rule of [np.round]. *)
Definition round_half_even (x : R) : Z :=
  let f := Zfloor x in
  let d := x - IZR f in
  if Rlt_dec d (1 / 2) then f
  else if Rlt_dec (1 / 2) d then (f + 1)%Z
  else if Z.even f then f else (f + 1)%Z.

Definition np_round (x : f64) : f64 :=
  match x with
  | Fin r => Fin (IZR (round_half_even r))
  | Inf s => Inf s
  | NaN => NaN
  end.

Definition int32_min : Z := (- 2147483648)%Z.
Definition int32_max : Z := 2147483647%Z.

(** Truncation toward zero, the C conversion of a double to an integer. *)
Definition Ztrunc (x : R) : Z :=
  if Rlt_dec x 0 then (- Zfloor (- x))%Z else Zfloor x.

(** [.astype(np.int32)].  A value that does not fit, an infinity and a
    nan give the "integer indefinite" value of the x86-64 conversion,
    which is [int32_min]. *)
Definition astype_int32 (x : f64) : Z :=
  match x with
  | Fin r =>
      let z := Ztrunc r in
      if ((int32_min <=? z) && (z <=? int32_max))%Z then z else int32_min
  | Inf _ => int32_min
  | NaN => int32_min
  end.

(** [np.clip(a, a_min, a_max)] is [minimum(a_max, maximum(a, a_min))]. *)
Definition np_clip (a a_min a_max : Z) : Z := Z.min a_max (Z.max a a_min).

(** [np.arange(n, dtype=np.float64)]. *)
Definition np_arange (n : Z) : list f64 :=
  map (fun k => Fin (INR k)) (seq 0 (Z.to_nat n)).

(** ** The row-index computation of [reproject], lines 189-200 *)

Section RowIndex.

Variables (lat_min lat_max : R) (merc_min merc_max : R) (src_h : Z).

Let out_h : Z := src_h.

(** line 189 *)
Definition fraction : list f64 :=
  map (fun k => np_true_divide k (IZR (out_h - 1))) (np_arange out_h).

(** line 192 *)
Definition merc_vals : list f64 :=
  map (fun f => np_rsub merc_max (np_multiply f (merc_max - merc_min)))
      fraction.

(** line 193, one element *)
Definition lat_of_merc (m : f64) : f64 :=
  np_degrees (np_sub (np_multiply (np_arctan (np_exp m)) 2) (math_pi / 2)).

Definition lats : list f64 := map lat_of_merc merc_vals.

(** lines 196-200, one element *)
Definition src_row_of_lat (l : f64) : Z :=
  np_clip
    (astype_int32
       (np_round
          (np_multiply
             (np_true_divide (np_rsub lat_max l) (lat_max - lat_min))
             (IZR src_h))))
    0 (src_h - 1).

Definition y_src : list Z := map src_row_of_lat lats.

End RowIndex.

(** The inverse projection of line 193 on a finite scalar. *)
Definition inverse_merc_y (y : R) : R :=
  (2 * atan (exp y) - PI / 2) * (180 / PI).

(** ** Row selection and image output, lines 202-212 *)

(** One index of [arr[y_src]] along axis 0: negative indices count from
    the end, anything else out of range raises [IndexError]. *)
Definition take_row (a : ndarray) (k : Z) : result (list Z) :=
  let h := Z.of_nat (length (rows a)) in
  if ((0 <=? k) && (k <? h))%Z then Ok (nth (Z.to_nat k) (rows a) [])
  else if ((- h <=? k) && (k <? 0))%Z then
    Ok (nth (Z.to_nat (k + h)) (rows a) [])
  else Raise "IndexError".

Fixpoint take_rows (a : ndarray) (idx : list Z) : result (list (list Z)) :=
  match idx with
  | [] => Ok []
  | k :: idx' =>
      match take_row a k with
      | Raise e => Raise e
      | Ok r =>
          match take_rows a idx' with
          | Raise e => Raise e
          | Ok rs => Ok (r :: rs)
          end
      end
  end.

(** [arr[y_src]] for an integer array [y_src]. *)
Definition getitem (a : ndarray) (idx : list Z) : result ndarray :=
  match take_rows a idx with
  | Raise e => Raise e
  | Ok rs => Ok {| row_shape := row_shape a; rows := rs |}
  end.

(** [Image.fromarray(arr, mode=m)]: a new image with no palette of the
    program's and an empty [info].  Its pixels are the array's for the
    modes that [reproject] is written for (P, RGB and RGBA, one byte per
    sample); for a mode with another memory layout ([1], whose bits PIL
    reads packed) the rows of the image are not those of the array, and
    nothing is stated about them. *)
Definition fromarray (arr : ndarray) (m : string) : Image :=
  {| mode := m; pixels := arr; palette := None; info_transparency := None |}.

Definition putpalette (im : Image) (data : list Z) : Image :=
  {| mode := mode im; pixels := pixels im;
     palette := Some data; info_transparency := info_transparency im |}.

(** [img.getpalette()]. *)
Definition getpalette (im : Image) : option (list Z) := palette im.

(** Truth value of [palette] in [is_palette and palette]. *)
Definition truthy (p : option (list Z)) : bool :=
  match p with
  | Some (_ :: _) => true
  | _ => false
  end.

(** The file written by [out_img.save(dst_path, **save_kwargs)]: the
    [transparency] keyword when given, else the image's own. *)
Definition saved (im : Image) (kw_transparency : option transparency_t)
  : Image :=
  {| mode := mode im; pixels := pixels im; palette := palette im;
     info_transparency :=
       match kw_transparency with
       | Some t => Some t
       | None => info_transparency im
       end |}.

(** The row-index mapper: lines 185-200 of [reproject], the two calls of
    [_merc_y] and the map [y_src] computed from their results. *)
Definition row_index_map (lat_min lat_max : R) (src_h : Z) : M (list Z) :=
  emit (EvMercY lat_max) ;;;
  merc_max <- lift (_merc_y lat_max) ;;
  emit (EvMercY lat_min) ;;;
  merc_min <- lift (_merc_y lat_min) ;;
  ret (y_src lat_min lat_max merc_min merc_max src_h).

(** [reproject], line 150.  The result is the image written to
    [dst_path]. *)
Definition reproject (img : Image) (lat_min lat_max : R) : M Image :=
  emit EvOpen ;;;
  let is_palette := String.eqb (mode img) "P" in
  let palette := if is_palette then getpalette img else None in
  let transparency := info_transparency img in
  emit EvArray ;;;
  let arr := pixels img in
  let src_h := Z.of_nat (length (rows arr)) in
  ys <- row_index_map lat_min lat_max src_h ;;
  emit (EvIndex ys) ;;;
  out_arr <- lift (getitem arr ys) ;;
  let out_img := fromarray out_arr (mode img) in
  let out_img :=
    if is_palette && truthy palette
    then putpalette out_img (match palette with Some p => p | None => [] end)
    else out_img in
  let out_file := saved out_img transparency in
  emit (EvSave out_file) ;;;
  ret out_file.

(** One entry of [y_src], from the output row number. *)
Definition y_src_at (lat_min lat_max merc_min merc_max : R) (src_h : Z)
    (k : nat) : Z :=
  src_row_of_lat lat_min lat_max src_h
    (lat_of_merc
       (np_rsub merc_max
          (np_multiply (np_true_divide (Fin (INR k)) (IZR (src_h - 1)))
                       (merc_max - merc_min)))).

(** The real number that is rounded for output row [k]. *)
Definition row_position (lat_min lat_max merc_min merc_max : R) (src_h : Z)
    (k : nat) : R :=
  (lat_max
   - inverse_merc_y
       (merc_max - INR k / IZR (src_h - 1) * (merc_max - merc_min)))
  / (lat_max - lat_min) * IZR src_h.

(** The image that [reproject] writes once [arr[y_src]] is known. *)
Definition output_file (img : Image) (out_arr : ndarray) : Image :=
  let is_palette := String.eqb (mode img) "P" in
  let palette := if is_palette then getpalette img else None in
  let out_img := fromarray out_arr (mode img) in
  let out_img :=
    if is_palette && truthy palette
    then putpalette out_img (match palette with Some p => p | None => [] end)
    else out_img in
  saved out_img (info_transparency img).

(** The rows selected by an index array that stays inside the raster. *)
Definition gathered (a : ndarray) (idx : list Z) : ndarray :=
  {| row_shape := row_shape a;
     rows := map (fun k => nth (Z.to_nat k) (rows a) []) idx |}.

(** An index that addresses a row of a raster of [h] rows. *)
Definition in_rows (h : nat) (k : Z) : Prop := (0 <= k < Z.of_nat h)%Z.

(** ** Small rasters used as concrete inputs *)

(** A palette image of two rows and three columns with a transparent
    index. *)
Definition two_row_image : Image :=
  {| mode := "P";
     pixels := {| row_shape := [3%nat];
                  rows := [[1; 2; 3]; [4; 5; 6]]%Z |};
     palette := Some [0; 0; 0; 255; 255; 255]%Z;
     info_transparency := Some (TrIndex 0) |}.

(** A palette image of a single row. *)
Definition one_row_image : Image :=
  {| mode := "P";
     pixels := {| row_shape := [3%nat]; rows := [[7; 8; 9]]%Z |};
     palette := Some [0; 0; 0; 255; 255; 255]%Z;
     info_transparency := Some (TrIndex 0) |}.

(** The latitudes at which a run called [_merc_y]. *)
Fixpoint merc_y_calls (t : trace) : list R :=
  match t with
  | [] => []
  | EvMercY lat :: t' => lat :: merc_y_calls t'
  | _ :: t' => merc_y_calls t'
  end.

(** ** [_merc_y] in binary64 arithmetic

    The argument of the tangent is computed with IEEE 754 doubles as
    Python does; the libm functions [tan] and [log], which have no
    specification, are parameters. *)
Module Binary64.

Definition pi : float := 0x1.921fb54442d18p+1%float.

Definition radians (x : float) : float := (x * (pi / 180))%float.

Section Libm.

Variables libm_tan libm_log : float -> float.

Definition log (x : float) : result float :=
  if (x <=? 0)%float then Raise "ValueError" else Ok (libm_log x).

Definition _merc_y (lat_deg : float) : result float :=
  log (libm_tan (pi / 4 + radians lat_deg / 2)%float).

End Libm.

(** [a < b] on doubles, as the comparison of the IEEE 754 values they
    denote. *)
Definition lt (a b : float) : bool := SFltb (Prim2SF a) (Prim2SF b).

(** [x < y] on two outcomes: both are values and the first is smaller. *)
Definition lt_result (x y : result float) : Prop :=
  match x, y with
  | Ok a, Ok b => lt a b = true
  | _, _ => False
  end.

(** *** The row-index computation in binary64

    Lines 185-200 with IEEE 754 double arithmetic for [+], [-], [*] and
    [/].  The functions that have no specification are parameters:
    [libm_exp] and [libm_atan] behind [np.exp] and [np.arctan], the
    rounding [np_rint] behind [np.round], and the conversion [to_int32]
    behind [.astype(np.int32)], whose value outside the int32 range
    depends on the platform. *)

(** The double of a Python int; exact below 2^53. *)
Definition of_int (z : Z) : float :=
  match z with
  | Z0 => 0%float
  | Zpos _ => of_uint63 (Uint63.of_Z z)
  | Zneg _ => (- of_uint63 (Uint63.of_Z (- z)))%float
  end.

(** [np.degrees(x)] is [x * (180.0 / pi)]. *)
Definition degrees (x : float) : float := (x * (180 / pi))%float.

(** [np.arange(n, dtype=np.float64)]. *)
Definition arange (n : Z) : list float :=
  map (fun k => of_int (Z.of_nat k)) (seq 0 (Z.to_nat n)).

Section Mapper.

Variables libm_tan libm_log libm_exp libm_atan np_rint : float -> float.
Variable to_int32 : float -> Z.

(** line 193, one element *)
Definition lat_of_merc (m : float) : float :=
  degrees (2 * libm_atan (libm_exp m) - pi / 2)%float.

Section Rows.

Variables (lat_min lat_max merc_min merc_max : float) (src_h : Z).

(** line 189 *)
Definition fraction : list float :=
  map (fun k => (k / of_int (src_h - 1))%float) (arange src_h).

(** line 192 *)
Definition merc_vals : list float :=
  map (fun f => (merc_max - f * (merc_max - merc_min))%float) fraction.

Definition lats : list float := map lat_of_merc merc_vals.

(** lines 196-200, one element *)
Definition src_row_of_lat (l : float) : Z :=
  np_clip
    (to_int32
       (np_rint ((lat_max - l) / (lat_max - lat_min) * of_int src_h)%float))
    0 (src_h - 1).

Definition y_src : list Z := map src_row_of_lat lats.

(** One entry of [y_src], from the output row number. *)
Definition y_src_at (i : Z) : Z :=
  src_row_of_lat
    (lat_of_merc
       (merc_max - (of_int i / of_int (src_h - 1)) * (merc_max - merc_min))%float).

End Rows.

(** Lines 185-200: the two calls of [_merc_y] and the map. *)
Definition row_index_map (lat_min lat_max : float) (src_h : Z)
  : result (list Z) :=
  match _merc_y libm_tan libm_log lat_max with
  | Raise e => Raise e
  | Ok merc_max =>
      match _merc_y libm_tan libm_log lat_min with
      | Raise e => Raise e
      | Ok merc_min => Ok (y_src lat_min lat_max merc_min merc_max src_h)
      end
  end.

End Mapper.

End Binary64.

(** ** [generate_maps.py]: the crop box of [crop_and_darken] *)

(** [int(x)] on a float: truncation toward zero. *)
Definition py_int (x : R) : Z := Ztrunc x.

(** Lines 140-144 of [crop_and_darken]: the box handed to [img.crop] for
    an image of size [(w, h)] that covers the whole globe. *)
Definition crop_box (w h : Z) (lon_min lon_max lat_min lat_max : R)
  : Z * Z * Z * Z :=
  let px0 := py_int ((lon_min + 180) / 360 * IZR w) in
  let px1 := py_int ((lon_max + 180) / 360 * IZR w) in
  let py0 := py_int ((90 - lat_max) / 180 * IZR h) in
  let py1 := py_int ((90 - lat_min) / 180 * IZR h) in
  (px0, py0, px1, py1).

(** ** [_download], lines 113-140

    [_download_file] of [generate_maps.py] (lines 66-93) has the same
    body; only the request headers and the text of the progress line
    differ. *)

Definition bytes : Type := list Byte.byte.

(** What [urllib.request.urlopen(req)] gives for a URL.  It raises, or it
    returns a response: the value of
    [int(resp.headers.get("Content-Length", 0))], which raises on a
    malformed header, and the results of the successive calls
    [resp.read(block)]; past the end of the list [read] returns [b""]. *)
Inductive response : Type :=
| UrlError (exc : string)
| Response (content_length : result Z) (reads : list (result bytes)).

(** The values formatted into one progress line, lines 133-138. *)
Record progress : Type := {
  bar : string;
  pct : R;
  shown_downloaded : Z;
  shown_total : Z
}.

(** [s * n] on a string. *)
Fixpoint str_mul (s : string) (n : nat) : string :=
  match n with
  | O => ""
  | S n' => s ++ str_mul s n'
  end.

Definition progress_line (downloaded total : Z) : progress :=
  let pct := IZR (downloaded * 100) / IZR total in
  {| bar := str_mul "#" (Z.to_nat (py_int (pct / 2)));
     pct := pct;
     shown_downloaded := downloaded;
     shown_total := total |}.

(** The variables of the read loop: the bytes written to [dest] so far,
    the counter [downloaded] and the lines written to stdout. *)
Record dl_state : Type := {
  dest_file : bytes;
  downloaded : Z;
  stdout : list progress
}.

(** The [while True] loop, lines 126-139. *)
Fixpoint read_loop (total : Z) (reads : list (result bytes)) (st : dl_state)
  : dl_state * result unit :=
  match reads with
  | [] => (st, Ok tt)
  | Raise e :: _ => (st, Raise e)
  | Ok [] :: _ => (st, Ok tt)
  | Ok chunk :: rest =>
      let downloaded' := (downloaded st + Z.of_nat (length chunk))%Z in
      read_loop total rest
        {| dest_file := dest_file st ++ chunk;
           downloaded := downloaded';
           stdout := if (total =? 0)%Z then stdout st
                     else stdout st ++ [progress_line downloaded' total] |}
  end.

(** [_download(url, dest)] on the response for [url]: the file at [dest]
    afterwards ([None] when it was never opened), the progress lines and
    the outcome. *)
Definition _download (resp : response)
  : option bytes * list progress * result unit :=
  match resp with
  | UrlError e => (None, [], Raise e)
  | Response (Raise e) _ => (None, [], Raise e)
  | Response (Ok total) reads =>
      let '(st, r) :=
        read_loop total reads
          {| dest_file := []; downloaded := 0%Z; stdout := [] |} in
      (Some (dest_file st), stdout st, r)
  end.

(** The values that [downloaded] takes while the chunks [cs] are read,
    starting from [d]. *)
Fixpoint cumulative (d : Z) (cs : list bytes) : list Z :=
  match cs with
  | [] => []
  | c :: cs' =>
      let d' := (d + Z.of_nat (length c))%Z in
      d' :: cumulative d' cs'
  end.

(** ** [main], lines 217-250 *)

Module Driver.

Record entry : Type := {
  url : string;
  filename : string;
  description : string;
  lat_min : R;
  lat_max : R
}.

Definition _BASE : string := "https://djlorenz.github.io/astronomy/lp2024".

Definition FILES : list entry := [
  {| url := _BASE ++ "/world2024_low3.png";
     filename := "world_low3.png";
     description := "World LP 2024 — 1/40°, 65°S–75°N, 180°W–180°E";
     lat_min := -65; lat_max := 75 |};
  {| url := _BASE ++ "/NorthAmerica2024.png";
     filename := "NorthAmerica.png";
     description := "North America LP 2024 — 1/120°, 7–75°N, 180–51°W";
     lat_min := 7; lat_max := 75 |};
  {| url := _BASE ++ "/SouthAmerica2024.png";
     filename := "SouthAmerica.png";
     description := "South America LP 2024 — 1/120°, 57°S–14°N, 93–33°W";
     lat_min := -57; lat_max := 14 |};
  {| url := _BASE ++ "/Europe2024.png";
     filename := "Europe2024.png";
     description := "Europe LP 2024 — 1/120°, 34–75°N, 32°W–70°E";
     lat_min := 34; lat_max := 75 |};
  {| url := _BASE ++ "/Africa2024.png";
     filename := "Africa.png";
     description := "Africa LP 2024 — 1/120°, 36°S–38°N, 26°W–64°E";
     lat_min := -36; lat_max := 38 |};
  {| url := _BASE ++ "/Asia2024.png";
     filename := "Asia.png";
     description := "Asia LP 2024 — 1/120°, 5–75°N, 60–180°E";
     lat_min := 5; lat_max := 75 |};
  {| url := _BASE ++ "/Australia2024.png";
     filename := "Australia.png";
     description := "Australia LP 2024 — 1/120°, 48°S–8°N, 94–180°E";
     lat_min := -48; lat_max := 8 |}
]%string.

(** The two directories of the script, by file name, and the URLs that
    were requested, in order.  [CACHE_DIR] and [OUTPUT_DIR] are distinct
    directories, so they are kept as two maps. *)
Record dirs : Type := {
  cache : string -> option bytes;
  public : string -> option bytes;
  fetched : list string
}.

Definition put (d : string -> option bytes) (name : string) (b : bytes)
  : string -> option bytes :=
  fun n => if String.eqb n name then Some b else d n.

Section Main.

(** The network, the PNG decoder behind [Image.open] and [np.array], and
    the encoder behind [save]. *)
Variable net : string -> response.
Variable decode : bytes -> result Image.
Variable encode : Image -> bytes.

(** [reproject(cache_path, output_path, lat_min, lat_max)] on the two
    directories. *)
Definition reproject_file (name : string) (lat_min lat_max : R) (s : dirs)
  : dirs * result unit :=
  match cache s name with
  | None => (s, Raise "FileNotFoundError")
  | Some b =>
      match decode b with
      | Raise e => (s, Raise e)
      | Ok img =>
          match snd (run (reproject img lat_min lat_max)) with
          | Raise e => (s, Raise e)
          | Ok out =>
              ({| cache := cache s;
                  public := put (public s) name (encode out);
                  fetched := fetched s |}, Ok tt)
          end
      end
  end.

(** Step 1 of the loop body, lines 227-234: download unless cached. *)
Definition ensure_cached (e : entry) (s : dirs) : dirs * result unit :=
  match cache s (filename e) with
  | Some _ => (s, Ok tt)
  | None =>
      let '(file, _, r) := _download (net (url e)) in
      ({| cache := match file with
                   | Some b => put (cache s) (filename e) b
                   | None => cache s
                   end;
          public := public s;
          fetched := fetched s ++ [url e] |}, r)
  end.

(** The loop body, lines 221-241. *)
Definition process (e : entry) (s : dirs) : dirs * result unit :=
  match ensure_cached e s with
  | (s1, Raise x) => (s1, Raise x)
  | (s1, Ok _) => reproject_file (filename e) (lat_min e) (lat_max e) s1
  end.

Fixpoint process_all (es : list entry) (s : dirs) : dirs * result unit :=
  match es with
  | [] => (s, Ok tt)
  | e :: es' =>
      match process e s with
      | (s1, Raise x) => (s1, Raise x)
      | (s1, Ok _) => process_all es' s1
      end
  end.

(** What a completed loop body leaves behind for its entry: the cached
    file decodes, [reproject] returns on it, and the output directory
    holds the encoded result. *)
Definition settled (s : dirs) (e : entry) : Prop :=
  exists b img out,
    cache s (filename e) = Some b
    /\ decode b = Ok img
    /\ snd (run (reproject img (lat_min e) (lat_max e))) = Ok out
    /\ public s (filename e) = Some (encode out).

(** The file of an entry can be obtained in the state [s]: it is cached
    and decodes, or it is not cached and the network delivers a complete
    body that decodes. *)
Definition obtainable (s : dirs) (e : entry) : Prop :=
  match cache s (filename e) with
  | Some b => exists img, decode b = Ok img
  | None =>
      exists total chunks img,
        net (url e) = Response (Ok total) (map Ok chunks)
        /\ Forall (fun c => c <> []) chunks
        /\ decode (concat chunks) = Ok img
  end.

Definition main (s : dirs) : dirs * result unit := process_all FILES s.

End Main.

End Driver.

(** * Properties *)

(** ** The projector pair *)

Lemma merc_arg_range (L : R) :
  -90 < L < 90 ->
  0 < math_pi / 4 + math_radians L / 2 < PI / 2.
Proof.
  intros [Hlo Hhi]. unfold math_radians, math_pi.
  pose proof PI_RGT_0 as Hpi.
  split; nra.
Qed.

Lemma merc_y_interior (L : R) :
  -90 < L < 90 ->
  _merc_y L = Ok (ln (tan (math_pi / 4 + math_radians L / 2))).
Proof.
  intros HL. destruct (merc_arg_range L HL) as [H0 H1].
  unfold _merc_y, math_log, math_tan.
  destruct (Rlt_dec 0 (tan (math_pi / 4 + math_radians L / 2))) as [_ | Hn].
  - reflexivity.
  - exfalso. apply Hn. now apply tan_gt_0.
Qed.

Lemma merc_y_increasing (a b ya yb : R) :
  -90 < a -> a < b -> b < 90 ->
  _merc_y a = Ok ya -> _merc_y b = Ok yb -> ya < yb.
Proof.
  intros Ha Hab Hb Ea Eb.
  assert (HA : -90 < a < 90) by lra.
  assert (HB : -90 < b < 90) by lra.
  rewrite (merc_y_interior a HA) in Ea. rewrite (merc_y_interior b HB) in Eb.
  injection Ea as <-. injection Eb as <-.
  destruct (merc_arg_range a HA) as [A0 A1].
  destruct (merc_arg_range b HB) as [B0 B1].
  apply ln_increasing.
  - now apply tan_gt_0.
  - apply tan_increasing; try lra.
    unfold math_radians, math_pi. pose proof PI_RGT_0. nra.
Qed.

Lemma inverse_of_merc_y (L y : R) :
  -90 < L < 90 -> _merc_y L = Ok y -> inverse_merc_y y = L.
Proof.
  intros HL E. rewrite (merc_y_interior L HL) in E. injection E as <-.
  destruct (merc_arg_range L HL) as [H0 H1].
  unfold inverse_merc_y.
  rewrite exp_ln by now apply tan_gt_0.
  rewrite atan_tan by lra.
  unfold math_radians, math_pi. pose proof PI_RGT_0. field. lra.
Qed.

Lemma inverse_merc_y_range (y : R) : -90 < inverse_merc_y y < 90.
Proof.
  unfold inverse_merc_y.
  pose proof PI_RGT_0 as Hpi.
  pose proof (atan_bound (exp y)) as [_ Hhi].
  assert (H0 : 0 < atan (exp y)).
  { rewrite <- atan_0. apply atan_increasing, exp_pos. }
  assert (Hinv : 0 < / PI) by now apply Rinv_0_lt_compat.
  assert (E : (2 * atan (exp y) - PI / 2) * (180 / PI)
              = (4 * atan (exp y) * / PI - 1) * 90) by (field; lra).
  rewrite E.
  assert (B1 : 0 < atan (exp y) * / PI) by now apply Rmult_lt_0_compat.
  assert (B2 : atan (exp y) * / PI < / 2).
  { apply Rmult_lt_reg_r with PI; [lra|].
    rewrite Rmult_assoc, Rinv_l by lra. lra. }
  split; lra.
Qed.

Lemma merc_y_of_inverse (y : R) : _merc_y (inverse_merc_y y) = Ok y.
Proof.
  pose proof (inverse_merc_y_range y) as HL.
  rewrite (merc_y_interior _ HL). f_equal.
  assert (E : math_pi / 4 + math_radians (inverse_merc_y y) / 2
              = atan (exp y)).
  { unfold inverse_merc_y, math_radians, math_pi.
    pose proof PI_RGT_0. field. lra. }
  rewrite E, tan_atan. apply ln_exp.
Qed.

Lemma lat_of_merc_fin (y : R) : lat_of_merc (Fin y) = Fin (inverse_merc_y y).
Proof.
  unfold lat_of_merc, np_degrees, inverse_merc_y, math_pi. simpl.
  f_equal. ring.
Qed.

(** ** Rounding, conversion and clipping *)

Lemma round_half_even_IZR (z : Z) : round_half_even (IZR z) = z.
Proof.
  unfold round_half_even. rewrite ZfloorZ.
  destruct (Rlt_dec (IZR z - IZR z) (1 / 2)) as [_ | Hn]; [reflexivity|].
  exfalso. apply Hn. lra.
Qed.

Lemma round_half_even_bounds (x : R) :
  (Zfloor x <= round_half_even x <= Zfloor x + 1)%Z.
Proof.
  unfold round_half_even.
  destruct (Rlt_dec _ _); [lia|].
  destruct (Rlt_dec _ _); [lia|].
  destruct (Z.even _); lia.
Qed.

Lemma round_half_even_le (x y : R) :
  x <= y -> (round_half_even x <= round_half_even y)%Z.
Proof.
  intros Hxy.
  pose proof (Zfloor_le x y Hxy) as Hf.
  pose proof (round_half_even_bounds x) as [_ Bx].
  pose proof (round_half_even_bounds y) as [By _].
  destruct (Z.eq_dec (Zfloor x) (Zfloor y)) as [E | NE]; [|lia].
  unfold round_half_even. rewrite <- E.
  destruct (Rlt_dec (x - IZR (Zfloor x)) (1 / 2)) as [X1 | X1];
    destruct (Rlt_dec (y - IZR (Zfloor x)) (1 / 2)) as [Y1 | Y1];
    try lia; try lra;
    destruct (Rlt_dec (1 / 2) (x - IZR (Zfloor x))) as [X2 | X2];
    destruct (Rlt_dec (1 / 2) (y - IZR (Zfloor x))) as [Y2 | Y2];
    try lia; try lra;
    destruct (Z.even (Zfloor x)); lia.
Qed.

Lemma Ztrunc_IZR (z : Z) : Ztrunc (IZR z) = z.
Proof.
  unfold Ztrunc. destruct (Rlt_dec (IZR z) 0).
  - rewrite <- opp_IZR, ZfloorZ. lia.
  - apply ZfloorZ.
Qed.

Lemma astype_int32_IZR (z : Z) :
  (int32_min <= z <= int32_max)%Z -> astype_int32 (Fin (IZR z)) = z.
Proof.
  intros [Hlo Hhi]. unfold astype_int32. rewrite Ztrunc_IZR.
  apply Z.leb_le in Hlo. apply Z.leb_le in Hhi.
  now rewrite Hlo, Hhi.
Qed.


(** ** The row-index map, element by element *)

Lemma inverse_merc_y_le (y1 y2 : R) :
  y1 <= y2 -> inverse_merc_y y1 <= inverse_merc_y y2.
Proof.
  intros [Hlt | ->]; [|lra].
  unfold inverse_merc_y. pose proof PI_RGT_0 as Hpi.
  assert (Ha : atan (exp y1) < atan (exp y2))
    by now apply atan_increasing, exp_increasing.
  assert (Hc : 0 < 180 / PI) by (apply Rdiv_lt_0_compat; lra).
  apply Rmult_le_compat_r; lra.
Qed.

Lemma y_src_unfold lat_min lat_max merc_min merc_max src_h :
  y_src lat_min lat_max merc_min merc_max src_h
  = map (y_src_at lat_min lat_max merc_min merc_max src_h)
        (seq 0 (Z.to_nat src_h)).
Proof.
  unfold y_src, lats, merc_vals, fraction, np_arange.
  rewrite !map_map. reflexivity.
Qed.

Lemma y_src_length lat_min lat_max merc_min merc_max src_h :
  length (y_src lat_min lat_max merc_min merc_max src_h) = Z.to_nat src_h.
Proof. rewrite y_src_unfold, length_map, length_seq. reflexivity. Qed.

Lemma y_src_nth lat_min lat_max merc_min merc_max src_h (i : nat) :
  (i < Z.to_nat src_h)%nat ->
  nth i (y_src lat_min lat_max merc_min merc_max src_h) 0%Z
  = y_src_at lat_min lat_max merc_min merc_max src_h i.
Proof.
  intros Hi. rewrite y_src_unfold.
  rewrite nth_indep with (d' := y_src_at lat_min lat_max merc_min merc_max src_h 0%nat)
    by (rewrite length_map, length_seq; exact Hi).
  rewrite map_nth, seq_nth by exact Hi. reflexivity.
Qed.

Lemma y_src_at_finite lat_min lat_max merc_min merc_max src_h k :
  src_h <> 1%Z -> lat_min <> lat_max ->
  y_src_at lat_min lat_max merc_min merc_max src_h k
  = np_clip
      (astype_int32
         (Fin (IZR (round_half_even
                      (row_position lat_min lat_max merc_min merc_max src_h k)))))
      0 (src_h - 1).
Proof.
  intros HH Hlat.
  unfold y_src_at, src_row_of_lat, row_position.
  assert (Hd : IZR (src_h - 1) <> 0).
  { intros E. apply eq_IZR_R0 in E. lia. }
  cbn [np_true_divide].
  destruct (Req_EM_T (IZR (src_h - 1)) 0) as [E | _]; [contradiction|].
  cbn [np_multiply np_rsub]. rewrite lat_of_merc_fin.
  cbn [np_rsub np_true_divide].
  destruct (Req_EM_T (lat_max - lat_min) 0) as [E | _]; [exfalso; lra|].
  reflexivity.
Qed.

(** ** Extents strictly inside (-90, 90), north above south *)

Section InteriorExtent.

Variables (lat_min lat_max merc_min merc_max : R) (src_h : Z).
Hypothesis Hsouth : -90 < lat_min.
Hypothesis Horder : lat_min < lat_max.
Hypothesis Hnorth : lat_max < 90.
Hypothesis Hheight : (2 <= src_h)%Z.
Hypothesis Emax : _merc_y lat_max = Ok merc_max.
Hypothesis Emin : _merc_y lat_min = Ok merc_min.

Let pos := row_position lat_min lat_max merc_min merc_max src_h.
Let merc_at (k : nat) : R :=
  merc_max - INR k / IZR (src_h - 1) * (merc_max - merc_min).

Lemma merc_order : merc_min < merc_max.
Proof. now apply (merc_y_increasing lat_min lat_max). Qed.

Lemma height_pos : 0 < IZR (src_h - 1).
Proof. apply IZR_lt. lia. Qed.

Lemma fraction_range (k : nat) :
  (Z.of_nat k <= src_h - 1)%Z -> 0 <= INR k / IZR (src_h - 1) <= 1.
Proof.
  intros Hk. pose proof height_pos as Hp.
  assert (H0 : 0 <= INR k) by apply pos_INR.
  assert (H1 : INR k <= IZR (src_h - 1))
    by (rewrite INR_IZR_INZ; now apply IZR_le).
  split.
  - apply Rmult_le_pos; [exact H0 | left; now apply Rinv_0_lt_compat].
  - apply Rmult_le_reg_r with (IZR (src_h - 1)); [exact Hp|].
    unfold Rdiv. rewrite Rmult_assoc, Rinv_l by lra. lra.
Qed.



Lemma merc_at_range (k : nat) :
  (Z.of_nat k <= src_h - 1)%Z -> merc_min <= merc_at k <= merc_max.
Proof.
  intros Hk. unfold merc_at.
  pose proof merc_order. pose proof (fraction_range k Hk). nra.
Qed.

Lemma lat_at_range (k : nat) :
  (Z.of_nat k <= src_h - 1)%Z ->
  lat_min <= inverse_merc_y (merc_at k) <= lat_max.
Proof.
  intros Hk. destruct (merc_at_range k Hk) as [Hlo Hhi].
  assert (Imin : inverse_merc_y merc_min = lat_min)
    by (apply inverse_of_merc_y; [lra | exact Emin]).
  assert (Imax : inverse_merc_y merc_max = lat_max)
    by (apply inverse_of_merc_y; [lra | exact Emax]).
  split.
  - rewrite <- Imin. now apply inverse_merc_y_le.
  - rewrite <- Imax. now apply inverse_merc_y_le.
Qed.

Lemma scale_pos : 0 < / (lat_max - lat_min) * IZR src_h.
Proof.
  apply Rmult_lt_0_compat.
  - apply Rinv_0_lt_compat. lra.
  - apply IZR_lt. lia.
Qed.

Lemma pos_eq (k : nat) :
  pos k = (lat_max - inverse_merc_y (merc_at k))
          * (/ (lat_max - lat_min) * IZR src_h).
Proof. unfold pos, row_position, merc_at, Rdiv. ring. Qed.

Lemma pos_range (k : nat) :
  (Z.of_nat k <= src_h - 1)%Z -> 0 <= pos k <= IZR src_h.
Proof.
  intros Hk. rewrite pos_eq.
  destruct (lat_at_range k Hk) as [Hlo Hhi].
  pose proof scale_pos as Hs.
  split.
  - apply Rmult_le_pos; lra.
  - apply Rle_trans
      with ((lat_max - lat_min) * (/ (lat_max - lat_min) * IZR src_h)).
    + apply Rmult_le_compat_r; lra.
    + right. field. lra.
Qed.


Lemma pos_first : pos 0%nat = 0.
Proof.
  rewrite pos_eq. unfold merc_at. simpl INR.
  replace (merc_max - 0 / IZR (src_h - 1) * (merc_max - merc_min))
    with merc_max by (unfold Rdiv; ring).
  rewrite (inverse_of_merc_y lat_max merc_max) by (try exact Emax; lra).
  ring.
Qed.

Lemma pos_last : pos (Z.to_nat (src_h - 1)) = IZR src_h.
Proof.
  rewrite pos_eq. unfold merc_at.
  rewrite INR_IZR_INZ, Z2Nat.id by lia.
  pose proof height_pos as Hp.
  replace (merc_max - IZR (src_h - 1) / IZR (src_h - 1) * (merc_max - merc_min))
    with merc_min by (field; lra).
  rewrite (inverse_of_merc_y lat_min merc_min) by (try exact Emin; lra).
  field. lra.
Qed.

Lemma round_pos_range (k : nat) :
  (Z.of_nat k <= src_h - 1)%Z ->
  (0 <= round_half_even (pos k) <= src_h)%Z.
Proof.
  intros Hk. destruct (pos_range k Hk) as [Hlo Hhi].
  split.
  - rewrite <- (round_half_even_IZR 0). now apply round_half_even_le.
  - rewrite <- (round_half_even_IZR src_h). now apply round_half_even_le.
Qed.

(** Below the int32 range limit the conversion is exact, so an entry of
    [y_src] is the clipped rounding of its row position. *)
Lemma y_src_at_interior (k : nat) :
  (src_h <= int32_max)%Z -> (Z.of_nat k <= src_h - 1)%Z ->
  y_src_at lat_min lat_max merc_min merc_max src_h k
  = np_clip (round_half_even (pos k)) 0 (src_h - 1).
Proof.
  intros Hmax Hk.
  rewrite y_src_at_finite by (try lia; lra).
  fold pos. rewrite astype_int32_IZR; [reflexivity|].
  pose proof (round_pos_range k Hk). unfold int32_min. lia.
Qed.

End InteriorExtent.

(** ** Runs of the mapper and of [reproject] *)

Lemma row_index_map_run lat_min lat_max src_h (t : trace) :
  row_index_map lat_min lat_max src_h t
  = match _merc_y lat_max with
    | Raise e => (t ++ [EvMercY lat_max], Raise e)
    | Ok merc_max =>
        match _merc_y lat_min with
        | Raise e => (t ++ [EvMercY lat_max; EvMercY lat_min], Raise e)
        | Ok merc_min =>
            (t ++ [EvMercY lat_max; EvMercY lat_min],
             Ok (y_src lat_min lat_max merc_min merc_max src_h))
        end
    end.
Proof.
  unfold row_index_map, bind, emit, lift, ret.
  destruct (_merc_y lat_max); [|reflexivity].
  destruct (_merc_y lat_min); rewrite <- app_assoc; reflexivity.
Qed.

Lemma reproject_run (img : Image) lat_min lat_max :
  run (reproject img lat_min lat_max)
  = match row_index_map lat_min lat_max
            (Z.of_nat (length (rows (pixels img)))) [EvOpen; EvArray] with
    | (t, Raise e) => (t, Raise e)
    | (t, Ok ys) =>
        match getitem (pixels img) ys with
        | Raise e => (t ++ [EvIndex ys], Raise e)
        | Ok out_arr =>
            (t ++ [EvIndex ys; EvSave (output_file img out_arr)],
             Ok (output_file img out_arr))
        end
    end.
Proof.
  unfold run, reproject, bind, emit, lift, ret. simpl app.
  destruct (row_index_map _ _ _ _) as [t [ys | e]]; [|reflexivity].
  destruct (getitem (pixels img) ys) as [out_arr | e]; [|reflexivity].
  rewrite <- app_assoc. reflexivity.
Qed.

(** ** Row selection *)

Lemma take_row_in_range (a : ndarray) (k : Z) :
  in_rows (length (rows a)) k ->
  take_row a k = Ok (nth (Z.to_nat k) (rows a) []).
Proof.
  intros [Hlo Hhi]. unfold take_row.
  apply Z.leb_le in Hlo. apply Z.ltb_lt in Hhi.
  now rewrite Hlo, Hhi.
Qed.

Lemma take_rows_in_range (a : ndarray) (idx : list Z) :
  Forall (in_rows (length (rows a))) idx ->
  take_rows a idx
  = Ok (map (fun k => nth (Z.to_nat k) (rows a) []) idx).
Proof.
  induction 1 as [| k idx Hk _ IH]; [reflexivity|].
  simpl. rewrite (take_row_in_range a k Hk), IH. reflexivity.
Qed.

Lemma getitem_in_range (a : ndarray) (idx : list Z) :
  Forall (in_rows (length (rows a))) idx ->
  getitem a idx
  = Ok {| row_shape := row_shape a;
          rows := map (fun k => nth (Z.to_nat k) (rows a) []) idx |}.
Proof.
  intros H. unfold getitem. now rewrite take_rows_in_range.
Qed.

(** Whatever the floating-point values are, the clip leaves every entry
    of [y_src] inside the source raster. *)
Lemma y_src_in_rows lat_min lat_max merc_min merc_max (h : nat) :
  Forall (in_rows h) (y_src lat_min lat_max merc_min merc_max (Z.of_nat h)).
Proof.
  rewrite y_src_unfold. apply Forall_forall. intros z Hz.
  apply in_map_iff in Hz. destruct Hz as [k [<- Hk]].
  apply in_seq in Hk. unfold y_src_at, src_row_of_lat, in_rows, np_clip.
  lia.
Qed.

(** ** The mapper at the south pole *)

Lemma merc_y_south_pole : _merc_y (-90) = Raise "ValueError".
Proof.
  unfold _merc_y, math_tan, math_radians, math_pi.
  replace (PI / 4 + -90 * (PI / 180) / 2) with 0 by field.
  rewrite tan_0. unfold math_log.
  destruct (Rlt_dec 0 0) as [H | _]; [lra | reflexivity].
Qed.

Lemma row_index_map_south_pole (lat_max : R) (src_h : Z) :
  -90 < lat_max < 90 ->
  run (row_index_map (-90) lat_max src_h)
  = ([EvMercY lat_max; EvMercY (-90)], Raise "ValueError").
Proof.
  intros HL. unfold run. rewrite row_index_map_run.
  rewrite (merc_y_interior lat_max HL), merc_y_south_pole. reflexivity.
Qed.

Lemma row_index_map_interior (lat_min lat_max : R) (src_h : Z) :
  -90 < lat_min < 90 -> -90 < lat_max < 90 ->
  exists merc_min merc_max,
    _merc_y lat_min = Ok merc_min
    /\ _merc_y lat_max = Ok merc_max
    /\ run (row_index_map lat_min lat_max src_h)
       = ([EvMercY lat_max; EvMercY lat_min],
          Ok (y_src lat_min lat_max merc_min merc_max src_h)).
Proof.
  intros Hmin Hmax.
  exists (ln (tan (math_pi / 4 + math_radians lat_min / 2))),
         (ln (tan (math_pi / 4 + math_radians lat_max / 2))).
  split; [now apply merc_y_interior|].
  split; [now apply merc_y_interior|].
  unfold run. rewrite row_index_map_run.
  rewrite (merc_y_interior lat_max Hmax), (merc_y_interior lat_min Hmin).
  reflexivity.
Qed.

(** ** What [reproject] does with an extent *)

Lemma merc_y_raises (x : R) (e : string) :
  _merc_y x = Raise e -> e = "ValueError".
Proof.
  unfold _merc_y, math_log. destruct (Rlt_dec _ _); intros E.
  - discriminate.
  - now injection E.
Qed.

Lemma pixels_output_file (img : Image) (out_arr : ndarray) :
  pixels (output_file img out_arr) = out_arr.
Proof.
  unfold output_file.
  destruct (String.eqb (mode img) "P" && truthy _); reflexivity.
Qed.

Lemma reproject_interior (img : Image) (lat_min lat_max : R) :
  -90 < lat_min < 90 -> -90 < lat_max < 90 ->
  exists merc_min merc_max,
    _merc_y lat_min = Ok merc_min
    /\ _merc_y lat_max = Ok merc_max
    /\ let ys := y_src lat_min lat_max merc_min merc_max
                   (Z.of_nat (length (rows (pixels img)))) in
       let out := output_file img (gathered (pixels img) ys) in
       run (reproject img lat_min lat_max)
       = ([EvOpen; EvArray; EvMercY lat_max; EvMercY lat_min;
           EvIndex ys; EvSave out], Ok out).
Proof.
  intros Hmin Hmax.
  exists (ln (tan (math_pi / 4 + math_radians lat_min / 2))),
         (ln (tan (math_pi / 4 + math_radians lat_max / 2))).
  split; [now apply merc_y_interior|].
  split; [now apply merc_y_interior|].
  intros ys out. rewrite reproject_run, row_index_map_run.
  rewrite (merc_y_interior lat_max Hmax), (merc_y_interior lat_min Hmin).
  fold ys. rewrite getitem_in_range by apply y_src_in_rows.
  reflexivity.
Qed.

Lemma reproject_raises (img : Image) (lat_min lat_max : R) (e : string) :
  snd (run (reproject img lat_min lat_max)) = Raise e ->
  e = "ValueError"
  /\ exists t, fst (run (reproject img lat_min lat_max))
               = EvOpen :: EvArray :: EvMercY lat_max :: t.
Proof.
  rewrite reproject_run, row_index_map_run.
  destruct (_merc_y lat_max) as [M | e1] eqn:EM.
  - destruct (_merc_y lat_min) as [m | e2] eqn:Em.
    + rewrite getitem_in_range by apply y_src_in_rows.
      simpl. discriminate.
    + simpl. intros E. injection E as <-.
      split; [now apply (merc_y_raises lat_min) | now eexists].
  - simpl. intros E. injection E as <-.
    split; [now apply (merc_y_raises lat_max) | now eexists].
Qed.

Lemma reproject_index_event (img : Image) lat_min lat_max merc_min merc_max :
  _merc_y lat_min = Ok merc_min -> _merc_y lat_max = Ok merc_max ->
  In (EvIndex (y_src lat_min lat_max merc_min merc_max
                 (Z.of_nat (length (rows (pixels img))))))
     (fst (run (reproject img lat_min lat_max))).
Proof.
  intros Em EM. rewrite reproject_run, row_index_map_run, EM, Em.
  rewrite getitem_in_range by apply y_src_in_rows.
  cbn [fst app]. do 4 right. left. reflexivity.
Qed.

(** ** The row-index map in binary64 *)

Lemma float_sub_diag (v : float) :
  (v - v)%float = 0%float \/ (v - v)%float = nan.
Proof.
  assert (E : Prim2SF (v - v) = S754_zero false
              \/ Prim2SF (v - v) = S754_nan).
  { rewrite FloatAxioms.sub_spec. unfold FloatAxioms.SF64sub.
    destruct (Prim2SF v) as [s | s | | s m e]; cbn.
    - left. now destruct s.
    - right. now destruct s.
    - now right.
    - left. rewrite Z.sub_diag. reflexivity. }
  destruct E as [E | E]; [left | right];
    apply FloatAxioms.Prim2SF_inj; rewrite E; reflexivity.
Qed.

Section Binary64Mapper.

Variables libm_tan libm_log libm_exp libm_atan np_rint : float -> float.
Variable to_int32 : float -> Z.

Local Abbreviation b64_y_src :=
  (Binary64.y_src libm_exp libm_atan np_rint to_int32).
Local Abbreviation b64_y_src_at :=
  (Binary64.y_src_at libm_exp libm_atan np_rint to_int32).
Local Abbreviation b64_row_index_map :=
  (Binary64.row_index_map libm_tan libm_log libm_exp libm_atan np_rint
     to_int32).

Lemma binary64_y_src_unfold lat_min lat_max merc_min merc_max src_h :
  b64_y_src lat_min lat_max merc_min merc_max src_h
  = map (fun k => b64_y_src_at lat_min lat_max merc_min merc_max src_h
                    (Z.of_nat k))
        (seq 0 (Z.to_nat src_h)).
Proof.
  unfold Binary64.y_src, Binary64.lats, Binary64.merc_vals,
    Binary64.fraction, Binary64.arange.
  rewrite !map_map. reflexivity.
Qed.

Lemma binary64_y_src_length lat_min lat_max merc_min merc_max src_h :
  length (b64_y_src lat_min lat_max merc_min merc_max src_h)
  = Z.to_nat src_h.
Proof. now rewrite binary64_y_src_unfold, length_map, length_seq. Qed.

Lemma binary64_y_src_nth lat_min lat_max merc_min merc_max src_h (i : nat) :
  (i < Z.to_nat src_h)%nat ->
  nth i (b64_y_src lat_min lat_max merc_min merc_max src_h) 0%Z
  = b64_y_src_at lat_min lat_max merc_min merc_max src_h (Z.of_nat i).
Proof.
  intros Hi. rewrite binary64_y_src_unfold.
  rewrite nth_indep with
    (d' := (fun k => b64_y_src_at lat_min lat_max merc_min merc_max src_h
                       (Z.of_nat k)) 0%nat)
    by (rewrite length_map, length_seq; exact Hi).
  rewrite (map_nth (fun k => b64_y_src_at lat_min lat_max merc_min merc_max
                               src_h (Z.of_nat k))).
  now rewrite seq_nth.
Qed.

Lemma binary64_y_src_in_rows lat_min lat_max merc_min merc_max (h : nat) :
  Forall (in_rows h)
    (b64_y_src lat_min lat_max merc_min merc_max (Z.of_nat h)).
Proof.
  rewrite binary64_y_src_unfold. apply Forall_forall. intros z Hz.
  apply in_map_iff in Hz. destruct Hz as [k [<- Hk]].
  apply in_seq in Hk.
  unfold Binary64.y_src_at, Binary64.src_row_of_lat, in_rows, np_clip.
  lia.
Qed.

Lemma binary64_row_index_map_returns lat_min lat_max src_h ys :
  b64_row_index_map lat_min lat_max src_h = Ok ys ->
  exists merc_min merc_max,
    Binary64._merc_y libm_tan libm_log lat_min = Ok merc_min
    /\ Binary64._merc_y libm_tan libm_log lat_max = Ok merc_max
    /\ ys = b64_y_src lat_min lat_max merc_min merc_max src_h.
Proof.
  unfold Binary64.row_index_map.
  destruct (Binary64._merc_y libm_tan libm_log lat_max) as [M | e];
    [|discriminate].
  destruct (Binary64._merc_y libm_tan libm_log lat_min) as [m | e];
    [|discriminate].
  intros E. injection E as <-. now exists m, M.
Qed.

(** When both extent values lead to the same argument of the tangent, the
    two Mercator values are the same double and every row gets the same
    entry, whatever the library functions compute. *)
Lemma binary64_narrow_extent_constant (ys : list Z) :
  b64_row_index_map 0 0x1p-60 2 = Ok ys ->
  nth 0 ys 0%Z = nth 1 ys 0%Z.
Proof.
  intros Hys.
  destruct (binary64_row_index_map_returns _ _ _ _ Hys)
    as [m [M [Em [EM ->]]]].
  assert (EmM : Binary64._merc_y libm_tan libm_log 0x1p-60
                = Binary64._merc_y libm_tan libm_log 0)
    by (unfold Binary64._merc_y; f_equal).
  rewrite EmM, Em in EM. injection EM as <-.
  rewrite !binary64_y_src_nth by (cbn; lia).
  unfold Binary64.y_src_at. f_equal. f_equal.
  change (Binary64.of_int (Z.of_nat 0) / Binary64.of_int (2 - 1))%float
    with 0%float.
  change (Binary64.of_int (Z.of_nat 1) / Binary64.of_int (2 - 1))%float
    with 1%float.
  destruct (float_sub_diag m) as [-> | ->]; reflexivity.
Qed.


End Binary64Mapper.

(** ** The claims on the row-index map *)

(** The exact value of the claim's formula at the two rows of a two-row
    raster: 0 and 1. *)
Lemma exact_formula_two_rows (lat_min lat_max merc_min merc_max : R) :
  -90 < lat_min -> lat_min < lat_max -> lat_max < 90 ->
  _merc_y lat_max = Ok merc_max -> _merc_y lat_min = Ok merc_min ->
  Z.max 0 (Z.min (2 - 1)
     (round_half_even (row_position lat_min lat_max merc_min merc_max 2 0)))
  = 0%Z
  /\ Z.max 0 (Z.min (2 - 1)
       (round_half_even (row_position lat_min lat_max merc_min merc_max 2 1)))
     = 1%Z.
Proof.
  intros Hs Ho Hn EM Em.
  assert (H2 : (2 <= 2)%Z) by lia.
  rewrite (pos_first lat_min lat_max merc_min merc_max 2) by assumption.
  change 1%nat with (Z.to_nat (2 - 1)).
  rewrite (pos_last lat_min lat_max merc_min merc_max 2) by assumption.
  rewrite (round_half_even_IZR 0), (round_half_even_IZR 2). split; reflexivity.
Qed.

(** C1, as stated, fails twice.  The extent lat_min = -90, lat_max = 0 is
    inside [-90, 90] with lat_min < lat_max and H = 2, yet the mapper
    raises ValueError in [_merc_y(-90)] and produces no row-index map.
    And for lat_min = 0.0, lat_max = 2^-60, H = 2 the claim's formula has
    the values 0 and 1, while in double arithmetic both calls of
    [_merc_y] get the same argument of the tangent, so whatever the
    library functions compute the two entries of the code's map are
    equal. *)
Lemma row_index_map_entries_fail :
  (-90 < 0 /\ -90 <= -90 <= 90 /\ -90 <= 0 <= 90 /\ (2 <= 2)%Z
   /\ snd (run (row_index_map (-90) 0 2)) = Raise "ValueError")
  /\ exists merc_min merc_max : R,
       _merc_y 0 = Ok merc_min
       /\ _merc_y (1 / 1152921504606846976) = Ok merc_max
       /\ let formula (i : nat) :=
            Z.max 0 (Z.min (2 - 1)
              (round_half_even
                 (row_position 0 (1 / 1152921504606846976)
                    merc_min merc_max 2 i))) in
          formula 0%nat = 0%Z /\ formula 1%nat = 1%Z
          /\ forall (libm_tan libm_log libm_exp libm_atan np_rint
                       : float -> float)
                    (to_int32 : float -> Z) (ys : list Z),
               Binary64.row_index_map libm_tan libm_log libm_exp libm_atan
                 np_rint to_int32 0%float 0x1p-60%float 2 = Ok ys ->
               ~ (nth 0 ys 0%Z = formula 0%nat
                  /\ nth 1 ys 0%Z = formula 1%nat).
Proof.
  split.
  { assert (E : run (row_index_map (-90) 0 2)
                = ([EvMercY 0; EvMercY (-90)], Raise "ValueError"))
      by (apply row_index_map_south_pole; lra).
    repeat split; try lra; try lia. rewrite E. reflexivity. }
  destruct (row_index_map_interior 0 (1 / 1152921504606846976) 2)
    as [m [M [Em [EM _]]]]; try lra.
  exists m, M. split; [exact Em|]. split; [exact EM|].
  destruct (exact_formula_two_rows 0 (1 / 1152921504606846976) m M)
    as [F0 F1]; try assumption; try lra.
  cbv zeta. split; [exact F0|]. split; [exact F1|].
  intros libm_tan libm_log libm_exp libm_atan np_rint to_int32 ys Hys [A B].
  pose proof (binary64_narrow_extent_constant _ _ _ _ _ _ ys Hys) as Hc.
  rewrite F0 in A. rewrite F1 in B. lia.
Qed.

(** C1, amended.  In exact real arithmetic: for every extent with
    -90 < lat_min < lat_max < 90 and every height H with
    2 <= H <= 2^31 - 1, both calls of [_merc_y] return, the mapper
    returns a map of H entries, and the entry at output row i is
    clamp(round((lat_max - inverseMercatorY(merc_max - (i/(H-1)) *
    (merc_max - merc_min))) / (lat_max - lat_min) * H), 0, H-1),
    rounding half to even; every entry is an integer in [0, H-1].
    In double arithmetic, whatever the library functions compute: for
    every extent on which both calls of [_merc_y] return and every
    height H, the map has H entries, every entry is an integer in
    [0, H-1], and the entry at row i is that same expression evaluated
    with double operations, converted to int32 and clipped. *)
Theorem row_index_map_entries :
  (forall (lat_min lat_max : R) (H : Z),
     -90 < lat_min -> lat_min < lat_max -> lat_max < 90 ->
     (2 <= H <= int32_max)%Z ->
     exists merc_min merc_max ys,
       _merc_y lat_min = Ok merc_min
       /\ _merc_y lat_max = Ok merc_max
       /\ snd (run (row_index_map lat_min lat_max H)) = Ok ys
       /\ length ys = Z.to_nat H
       /\ (forall img : Image,
             Z.of_nat (length (rows (pixels img))) = H ->
             In (EvIndex ys) (fst (run (reproject img lat_min lat_max))))
       /\ forall i : nat, (i < Z.to_nat H)%nat ->
            nth i ys 0%Z
            = Z.max 0
                (Z.min (H - 1)
                   (round_half_even
                      ((lat_max
                        - inverse_merc_y
                            (merc_max
                             - INR i / IZR (H - 1) * (merc_max - merc_min)))
                       / (lat_max - lat_min) * IZR H)))
            /\ (0 <= nth i ys 0%Z <= H - 1)%Z)
  /\ (forall (libm_tan libm_log libm_exp libm_atan np_rint : float -> float)
             (to_int32 : float -> Z)
             (lat_min lat_max : float) (h : nat) (ys : list Z),
        Binary64.row_index_map libm_tan libm_log libm_exp libm_atan np_rint
          to_int32 lat_min lat_max (Z.of_nat h) = Ok ys ->
        exists merc_min merc_max : float,
          Binary64._merc_y libm_tan libm_log lat_min = Ok merc_min
          /\ Binary64._merc_y libm_tan libm_log lat_max = Ok merc_max
          /\ length ys = h
          /\ forall i : nat, (i < h)%nat ->
               nth i ys 0%Z
               = np_clip
                   (to_int32
                      (np_rint
                         ((lat_max
                           - Binary64.degrees
                               (2 * libm_atan
                                      (libm_exp
                                         (merc_max
                                          - Binary64.of_int (Z.of_nat i)
                                            / Binary64.of_int
                                                (Z.of_nat h - 1)
                                            * (merc_max - merc_min)))
                                - Binary64.pi / 2))
                          / (lat_max - lat_min)
                          * Binary64.of_int (Z.of_nat h))%float))
                   0 (Z.of_nat h - 1)
               /\ (0 <= nth i ys 0%Z <= Z.of_nat h - 1)%Z).
Proof.
  split.
  - intros lat_min lat_max H Hs Ho Hn [H2 Hmax].
    destruct (row_index_map_interior lat_min lat_max H)
      as [m [M [Em [EM Er]]]]; try lra.
    exists m, M, (y_src lat_min lat_max m M H).
    split; [exact Em|]. split; [exact EM|].
    split; [rewrite Er; reflexivity|].
    split; [apply y_src_length|].
    split; [intros img <-; now apply reproject_index_event|].
    intros i Hi. rewrite y_src_nth by exact Hi.
    rewrite (y_src_at_interior lat_min lat_max m M H)
      by (try assumption; lia).
    unfold np_clip, row_position. lia.
  - intros libm_tan libm_log libm_exp libm_atan np_rint to_int32
      lat_min lat_max h ys Hys.
    destruct (binary64_row_index_map_returns _ _ _ _ _ _ _ _ _ _ Hys)
      as [m [M [Em [EM ->]]]].
    exists m, M. split; [exact Em|]. split; [exact EM|].
    split; [rewrite binary64_y_src_length; apply Nat2Z.id|].
    intros i Hi.
    rewrite binary64_y_src_nth by (rewrite Nat2Z.id; exact Hi).
    split; [reflexivity|].
    unfold Binary64.y_src_at, Binary64.src_row_of_lat, np_clip. lia.
Qed.

Lemma row_index_map_entries_witness :
  (exists ys : list Z,
     snd (run (row_index_map (-65) 75 1000)) = Ok ys
     /\ length ys = 1000%nat)
  /\ (exists ys : list Z,
        Binary64.row_index_map (fun _ => 1%float) (fun x => x) (fun x => x)
          (fun x => x) (fun x => x) (fun _ => 0%Z) 0%float 1%float 2
        = Ok ys
        /\ length ys = 2%nat).
Proof.
  split.
  - destruct (proj1 row_index_map_entries (-65) 75 1000%Z)
      as [m [M [ys [_ [_ [E [L _]]]]]]];
      try lra; [unfold int32_max; lia|].
    exists ys. split; [exact E | exact L].
  - eexists. split; [reflexivity|].
    destruct (proj2 row_index_map_entries (fun _ => 1%float) (fun x => x)
                (fun x => x) (fun x => x) (fun x => x) (fun _ => 0%Z)
                0%float 1%float 2%nat _ eq_refl)
      as [m [M [_ [_ [L _]]]]].
    exact L.
Defined.







(** ** The calls of the forward projector and the missing checks *)

(** C9, as stated, fails: the extents (-90, 0) and (0, 90) are inside
    [-90, 90] with lat_min < lat_max, and the mapper calls [_merc_y] at
    -90 in the first and at 90 in the second. *)
Lemma merc_y_called_at_pole :
  (-90 < 0 /\ -90 <= -90 <= 90 /\ -90 <= 0 <= 90)
  /\ merc_y_calls (fst (run (row_index_map (-90) 0 2))) = [0; -90]
  /\ ~ (-90 < -90 < 90)
  /\ (0 < 90 /\ -90 <= 0 <= 90 /\ -90 <= 90 <= 90)
  /\ In 90 (merc_y_calls (fst (run (row_index_map 0 90 2))))
  /\ ~ (-90 < 90 < 90).
Proof.
  split; [lra|]. split.
  { rewrite row_index_map_south_pole by lra. reflexivity. }
  split; [lra|]. split; [lra|]. split; [|lra].
  unfold run. rewrite row_index_map_run.
  destruct (_merc_y 90); [destruct (_merc_y 0)|]; simpl; auto.
Qed.

(** C9, amended.  For every extent with -90 < lat_min < lat_max < 90 the
    mapper, alone or inside [reproject], calls [_merc_y] exactly twice,
    at lat_max and at lat_min, so never at a latitude outside the open
    interval (-90, 90). *)
Theorem merc_y_calls_interior (img : Image) (lat_min lat_max : R) (H : Z) :
  -90 < lat_min -> lat_min < lat_max -> lat_max < 90 ->
  merc_y_calls (fst (run (row_index_map lat_min lat_max H)))
  = [lat_max; lat_min]
  /\ merc_y_calls (fst (run (reproject img lat_min lat_max)))
     = [lat_max; lat_min]
  /\ Forall (fun lat => -90 < lat < 90)
       (merc_y_calls (fst (run (reproject img lat_min lat_max)))).
Proof.
  intros Hs Ho Hn.
  destruct (row_index_map_interior lat_min lat_max H) as [m [M [_ [_ Er]]]];
    try lra.
  destruct (reproject_interior img lat_min lat_max) as [m' [M' [_ [_ Ep]]]];
    try lra.
  cbv zeta in Ep. rewrite Er, Ep. cbn [fst merc_y_calls].
  repeat split. repeat constructor; lra.
Qed.

Lemma merc_y_calls_interior_witness :
  merc_y_calls (fst (run (reproject two_row_image (-65) 75))) = [75; -65].
Proof.
  apply (merc_y_calls_interior two_row_image (-65) 75 2); lra.
Defined.

(** C2, as stated, fails: for lat_min = 80, lat_max = 70 [reproject]
    reads the pixel array, computes a row-index map, indexes the array
    and writes an output; it raises nothing, and no InvalidExtent. *)
Lemma swapped_extent_accepted :
  80 >= 70
  /\ (exists ys out,
        run (reproject two_row_image 80 70)
        = ([EvOpen; EvArray; EvMercY 70; EvMercY 80;
            EvIndex ys; EvSave out], Ok out))
  /\ snd (run (reproject two_row_image 80 70)) <> Raise "InvalidExtent".
Proof.
  destruct (reproject_interior two_row_image 80 70) as [m [M [_ [_ E]]]];
    try lra.
  cbv zeta in E. split; [lra|]. split.
  - eexists. eexists. exact E.
  - rewrite E. discriminate.
Qed.

(** C2, amended.  [reproject] does not validate the extent and has no
    InvalidExtent error.  For lat_min and lat_max strictly inside
    (-90, 90), in either order or equal, it reads the pixel array, calls
    [_merc_y] twice, indexes the array and writes an output without
    raising.  Whatever the extent, the only exception it raises is the
    ValueError of [math.log] inside [_merc_y], and it is raised after the
    pixel array has been read. *)
Theorem reproject_no_extent_check (img : Image) (lat_min lat_max : R) :
  (-90 < lat_min < 90 -> -90 < lat_max < 90 ->
   exists ys out,
     run (reproject img lat_min lat_max)
     = ([EvOpen; EvArray; EvMercY lat_max; EvMercY lat_min;
         EvIndex ys; EvSave out], Ok out))
  /\ (forall e : string,
        snd (run (reproject img lat_min lat_max)) = Raise e ->
        e = "ValueError"
        /\ exists t, fst (run (reproject img lat_min lat_max))
                     = EvOpen :: EvArray :: EvMercY lat_max :: t).
Proof.
  split.
  - intros Hmin Hmax.
    destruct (reproject_interior img lat_min lat_max Hmin Hmax)
      as [m [M [_ [_ E]]]].
    cbv zeta in E. eexists. eexists. exact E.
  - intros e. apply reproject_raises.
Qed.

Lemma reproject_no_extent_check_witness :
  exists ys out,
    run (reproject one_row_image 75 75)
    = ([EvOpen; EvArray; EvMercY 75; EvMercY 75; EvIndex ys; EvSave out],
       Ok out).
Proof.
  apply (proj1 (reproject_no_extent_check one_row_image 75 75)); lra.
Defined.

(** ** Rasters of height at most one *)







(** ** The resampling step *)

Lemma mode_output_file (img : Image) (out_arr : ndarray) :
  mode (output_file img out_arr) = mode img.
Proof.
  unfold output_file.
  destruct (String.eqb (mode img) "P" && truthy _); reflexivity.
Qed.

Lemma gathered_nth (a : ndarray) (idx : list Z) (i : nat) :
  (i < length idx)%nat ->
  nth i (rows (gathered a idx)) []
  = nth (Z.to_nat (nth i idx 0%Z)) (rows a) [].
Proof.
  intros Hi. unfold gathered. cbn [rows].
  rewrite nth_indep with (d' := nth (Z.to_nat 0%Z) (rows a) [])
    by (rewrite length_map; exact Hi).
  apply (map_nth (fun k => nth (Z.to_nat k) (rows a) [])).
Qed.

(** A run of [reproject] that returns has indexed the pixel array once,
    with a map of one in-range entry per source row, and has written the
    rows that this map selects. *)
Lemma reproject_returns_indexed (img : Image) (lat_min lat_max : R)
    (out : Image) (ys : list Z) :
  snd (run (reproject img lat_min lat_max)) = Ok out ->
  In (EvIndex ys) (fst (run (reproject img lat_min lat_max))) ->
  Forall (in_rows (length (rows (pixels img)))) ys
  /\ length ys = length (rows (pixels img))
  /\ out = output_file img (gathered (pixels img) ys).
Proof.
  rewrite reproject_run, row_index_map_run.
  destruct (_merc_y lat_max) as [M | e1]; [|discriminate].
  destruct (_merc_y lat_min) as [m | e2]; [|discriminate].
  rewrite getitem_in_range by apply y_src_in_rows.
  cbn [fst snd app]. intros E HIn. injection E as <-.
  destruct HIn as [H | [H | [H | [H | [H | [H | []]]]]]]; try discriminate.
  injection H as <-.
  split; [apply y_src_in_rows|].
  split; [rewrite y_src_length; apply Nat2Z.id | reflexivity].
Qed.

(** C7.  For every source image of mode P, RGB or RGBA:
    - for every row-index map whose entries lie in
      [0, source_height - 1], [arr[y_src]] raises nothing and, in the
      image built from it with the source's mode, output row i is the
      source row rowIndexMap[i] sample for sample (all columns and
      channels); width and channel count ([row_shape]) and the colour
      mode are the source's and there is one output row per entry of the
      map;
    - whenever [reproject] returns, the map it indexed the pixel array
      with has one entry in [0, source_height - 1] per source row, row i
      of the image it wrote is the source row rowIndexMap[i] sample for
      sample, and that image has exactly the height, width, channel
      count and colour mode of the source;
    - for latitudes strictly inside (-90, 90), [reproject] does return:
      it reads the pixel array, calls [_merc_y] twice, indexes the array
      once, with the map that its row-index mapper returned, and writes
      one image. *)
Theorem resample_copies_rows (img : Image) (lat_min lat_max : R) :
  mode img = "P" \/ mode img = "RGB" \/ mode img = "RGBA" ->
  (forall rowIndexMap : list Z,
     Forall (fun k => 0 <= k <= Z.of_nat (length (rows (pixels img))) - 1)%Z
            rowIndexMap ->
     exists out_arr,
       getitem (pixels img) rowIndexMap = Ok out_arr
       /\ let out_img := fromarray out_arr (mode img) in
          (forall i : nat, (i < length rowIndexMap)%nat ->
             nth i (rows (pixels out_img)) []
             = nth (Z.to_nat (nth i rowIndexMap 0%Z)) (rows (pixels img)) [])
          /\ row_shape (pixels out_img) = row_shape (pixels img)
          /\ length (rows (pixels out_img)) = length rowIndexMap
          /\ mode out_img = mode img)
  /\ (forall (out : Image) (rowIndexMap : list Z),
        snd (run (reproject img lat_min lat_max)) = Ok out ->
        In (EvIndex rowIndexMap) (fst (run (reproject img lat_min lat_max))) ->
        Forall (fun k =>
                  0 <= k <= Z.of_nat (length (rows (pixels img))) - 1)%Z
               rowIndexMap
        /\ length rowIndexMap = length (rows (pixels img))
        /\ (forall i : nat, (i < length (rows (pixels img)))%nat ->
              nth i (rows (pixels out)) []
              = nth (Z.to_nat (nth i rowIndexMap 0%Z))
                    (rows (pixels img)) [])
        /\ shape (pixels out) = shape (pixels img)
        /\ mode out = mode img)
  /\ (-90 < lat_min < 90 -> -90 < lat_max < 90 ->
      exists (out : Image) (rowIndexMap : list Z),
        snd (run (row_index_map lat_min lat_max
                    (Z.of_nat (length (rows (pixels img))))))
        = Ok rowIndexMap
        /\ run (reproject img lat_min lat_max)
           = ([EvOpen; EvArray; EvMercY lat_max; EvMercY lat_min;
               EvIndex rowIndexMap; EvSave out], Ok out)).
Proof.
  intros _. split; [|split].
  - intros rowIndexMap Hr.
    assert (Hin : Forall (in_rows (length (rows (pixels img)))) rowIndexMap).
    { eapply Forall_impl; [|exact Hr]. unfold in_rows. intros k Hk. lia. }
    exists (gathered (pixels img) rowIndexMap).
    split; [now apply getitem_in_range|].
    cbv zeta. unfold fromarray. cbn [pixels mode].
    split; [intros i Hi; now apply gathered_nth|].
    unfold gathered. cbn [rows row_shape].
    rewrite length_map. repeat split.
  - intros out rowIndexMap Hout Hev.
    destruct (reproject_returns_indexed img lat_min lat_max out rowIndexMap
                Hout Hev) as [Hin [Hlen ->]].
    rewrite pixels_output_file, mode_output_file.
    split.
    { eapply Forall_impl; [|exact Hin]. unfold in_rows. intros k Hk. lia. }
    split; [exact Hlen|].
    split; [intros i Hi; apply gathered_nth; now rewrite Hlen|].
    split; [|reflexivity].
    unfold shape, gathered. cbn [rows row_shape].
    now rewrite length_map, Hlen.
  - intros Hmin Hmax.
    destruct (reproject_interior img lat_min lat_max Hmin Hmax)
      as [m [M [Em [EM E]]]].
    cbv zeta in E. rewrite E. eexists. eexists.
    split; [|reflexivity].
    unfold run. rewrite row_index_map_run, EM, Em. reflexivity.
Qed.

Lemma resample_copies_rows_witness :
  exists (out : Image) (rowIndexMap : list Z),
    run (reproject two_row_image (-65) 75)
    = ([EvOpen; EvArray; EvMercY 75; EvMercY (-65);
        EvIndex rowIndexMap; EvSave out], Ok out)
    /\ length rowIndexMap = 2%nat
    /\ shape (pixels out) = [2; 3]%nat
    /\ mode out = "P".
Proof.
  destruct (resample_copies_rows two_row_image (-65) 75
              (or_introl eq_refl)) as [_ [Hall Hex]].
  destruct Hex as [out [ys [_ E]]]; [lra | lra |].
  exists out, ys. split; [exact E|].
  destruct (Hall out ys) as [_ [L [_ [S Mo]]]].
  - rewrite E. reflexivity.
  - rewrite E. cbn [fst]. do 4 right. left. reflexivity.
  - split; [exact L|]. split; [exact S | exact Mo].
Defined.

(** ** Palette and transparency *)

Lemma reproject_returns (img : Image) (lat_min lat_max : R) (out : Image) :
  snd (run (reproject img lat_min lat_max)) = Ok out ->
  exists merc_min merc_max,
    out = output_file img
            (gathered (pixels img)
               (y_src lat_min lat_max merc_min merc_max
                  (Z.of_nat (length (rows (pixels img)))))).
Proof.
  rewrite reproject_run, row_index_map_run.
  destruct (_merc_y lat_max) as [M | e1]; [|discriminate].
  destruct (_merc_y lat_min) as [m | e2]; [|discriminate].
  rewrite getitem_in_range by apply y_src_in_rows.
  cbn [snd]. intros E. injection E as <-. now exists m, M.
Qed.

Lemma gathered_rows_in (a : ndarray) (idx : list Z) (r : list Z) :
  Forall (in_rows (length (rows a))) idx ->
  In r (rows (gathered a idx)) -> In r (rows a).
Proof.
  intros Hidx Hr. unfold gathered in Hr. cbn [rows] in Hr.
  apply in_map_iff in Hr. destruct Hr as [k [<- Hk]].
  rewrite Forall_forall in Hidx. specialize (Hidx k Hk).
  apply nth_In. unfold in_rows in Hidx. lia.
Qed.

(** C8.  For every palette-mode source image (mode "P", with its
    palette, which has at least one entry) that has a transparency value
    set, every output that [reproject] writes has mode "P", the identical
    palette and the identical transparency value; its pixel array keeps
    the source's width and consists of rows of the source's palette
    indices, so only the row content changes.  For latitudes strictly
    inside (-90, 90) an output is written. *)
Theorem palette_preserved (img : Image) (pal : list Z) (tr : transparency_t)
    (lat_min lat_max : R) :
  mode img = "P" ->
  palette img = Some pal ->
  pal <> [] ->
  info_transparency img = Some tr ->
  (forall out : Image,
     snd (run (reproject img lat_min lat_max)) = Ok out ->
     mode out = "P"
     /\ palette out = Some pal
     /\ info_transparency out = Some tr
     /\ row_shape (pixels out) = row_shape (pixels img)
     /\ length (rows (pixels out)) = length (rows (pixels img))
     /\ forall r, In r (rows (pixels out)) -> In r (rows (pixels img)))
  /\ (-90 < lat_min < 90 -> -90 < lat_max < 90 ->
      exists out : Image,
        snd (run (reproject img lat_min lat_max)) = Ok out).
Proof.
  intros Hmode Hpal Hne Htr. split.
  - intros out Hout.
    destruct (reproject_returns img lat_min lat_max out Hout) as [m [M ->]].
    rewrite pixels_output_file.
    unfold output_file, getpalette. rewrite Hmode, Hpal, Htr.
    destruct pal as [| c pal']; [contradiction|].
    cbn [andb truthy putpalette fromarray saved mode palette
         info_transparency String.eqb Ascii.eqb Bool.eqb].
    split; [reflexivity|]. split; [reflexivity|]. split; [reflexivity|].
    split; [reflexivity|]. split.
    + unfold gathered. cbn [rows].
      rewrite length_map, y_src_length. apply Nat2Z.id.
    + intros r. apply gathered_rows_in, y_src_in_rows.
  - intros Hmin Hmax.
    destruct (reproject_interior img lat_min lat_max Hmin Hmax)
      as [m [M [_ [_ E]]]].
    cbv zeta in E. rewrite E. now eexists.
Qed.

Lemma palette_preserved_witness :
  exists out : Image,
    snd (run (reproject two_row_image (-65) 75)) = Ok out
    /\ palette out = Some [0; 0; 0; 255; 255; 255]%Z
    /\ info_transparency out = Some (TrIndex 0).
Proof.
  destruct (palette_preserved two_row_image [0; 0; 0; 255; 255; 255]%Z
              (TrIndex 0) (-65) 75) as [Hall Hex];
    try reflexivity; try discriminate.
  destruct Hex as [out Hout]; try lra.
  exists out. split; [exact Hout|].
  destruct (Hall out Hout) as [_ [Hp [Ht _]]]. split; assumption.
Defined.

(** ** Strict monotonicity of the forward projector *)

Lemma SFltb_irrefl (s : spec_float) : SFltb s s = false.
Proof.
  unfold SFltb, SFcompare.
  destruct s as [b | b | | b m e]; try destruct b; try reflexivity;
    rewrite Z.compare_refl, Pos.compare_cont_refl; reflexivity.
Qed.

Lemma binary64_lt_irrefl (a : float) : Binary64.lt a a = false.
Proof. apply SFltb_irrefl. Qed.

(** C10, as stated, fails for the doubles that [_merc_y] receives: the
    latitudes 0.0 and 2^-60 satisfy -90 < 0.0 < 2^-60 < 90, but
    pi/4 + radians(lat)/2 rounds to the same double for both, so
    whatever [math.tan] and [math.log] compute, the two calls give the
    same outcome and the first is not smaller than the second. *)
Lemma merc_y_binary64_collision :
  Binary64.lt (-90) 0 = true
  /\ Binary64.lt 0 0x1p-60 = true
  /\ Binary64.lt 0x1p-60 90 = true
  /\ forall libm_tan libm_log : float -> float,
       Binary64._merc_y libm_tan libm_log 0
       = Binary64._merc_y libm_tan libm_log 0x1p-60
       /\ ~ Binary64.lt_result
              (Binary64._merc_y libm_tan libm_log 0)
              (Binary64._merc_y libm_tan libm_log 0x1p-60).
Proof.
  split; [vm_compute; reflexivity|].
  split; [vm_compute; reflexivity|].
  split; [vm_compute; reflexivity|].
  intros libm_tan libm_log.
  assert (E : Binary64._merc_y libm_tan libm_log 0
              = Binary64._merc_y libm_tan libm_log 0x1p-60).
  { unfold Binary64._merc_y. f_equal. }
  split; [exact E|].
  rewrite <- E. unfold Binary64.lt_result.
  destruct (Binary64._merc_y libm_tan libm_log 0) as [v | e]; [|tauto].
  rewrite binary64_lt_irrefl. discriminate.
Qed.

(** C10, amended.  In exact real arithmetic the forward projector is
    strictly increasing on (-90, 90): for all latitudes a, b with
    -90 < a < b < 90 both calls return and _merc_y(a) < _merc_y(b). *)
Theorem merc_y_strictly_increasing (a b : R) :
  -90 < a -> a < b -> b < 90 ->
  exists ya yb : R,
    _merc_y a = Ok ya /\ _merc_y b = Ok yb /\ ya < yb.
Proof.
  intros Ha Hab Hb.
  assert (HA : -90 < a < 90) by lra.
  assert (HB : -90 < b < 90) by lra.
  eexists. eexists.
  split; [apply (merc_y_interior a HA)|].
  split; [apply (merc_y_interior b HB)|].
  apply (merc_y_increasing a b); try assumption;
    now apply merc_y_interior.
Qed.

Lemma merc_y_strictly_increasing_witness :
  exists ya yb : R, _merc_y 34 = Ok ya /\ _merc_y 75 = Ok yb /\ ya < yb.
Proof.
  apply (merc_y_strictly_increasing 34 75); lra.
Defined.

(** * Further properties of the code *)

(** ** Shape and metadata of every output *)

(** X4.  For a source of mode P, RGB or RGBA and whatever the extent,
    an output that [reproject] writes has the shape of the source
    (height, width and channels), its mode and its transparency value;
    each of its rows is a row of the source; and it carries the source
    palette exactly when the source is a palette image with a non-empty
    palette, otherwise no palette is attached. *)
Theorem reproject_keeps_shape (img out : Image) (lat_min lat_max : R) :
  mode img = "P" \/ mode img = "RGB" \/ mode img = "RGBA" ->
  snd (run (reproject img lat_min lat_max)) = Ok out ->
  shape (pixels out) = shape (pixels img)
  /\ mode out = mode img
  /\ info_transparency out = info_transparency img
  /\ (forall r, In r (rows (pixels out)) -> In r (rows (pixels img)))
  /\ palette out
     = (if String.eqb (mode img) "P"
        then match palette img with
             | Some (c :: p) => Some (c :: p)
             | _ => None
             end
        else None).
Proof.
  intros _ Hout.
  destruct (reproject_returns img lat_min lat_max out Hout) as [m [M ->]].
  rewrite pixels_output_file.
  split.
  { unfold shape, gathered. cbn [rows row_shape].
    now rewrite length_map, y_src_length, Nat2Z.id. }
  unfold output_file, getpalette.
  destruct (String.eqb (mode img) "P");
    destruct (palette img) as [[| c p] |];
    destruct (info_transparency img);
    cbn; repeat split;
    intros r; apply gathered_rows_in, y_src_in_rows.
Qed.

Lemma reproject_keeps_shape_witness :
  exists out : Image,
    snd (run (reproject two_row_image (-65) 75)) = Ok out
    /\ shape (pixels out) = [2; 3]%nat.
Proof.
  destruct (reproject_interior two_row_image (-65) 75) as [m [M [_ [_ E]]]];
    try lra.
  cbv zeta in E. eexists. split; [rewrite E; reflexivity|].
  apply (reproject_keeps_shape two_row_image _ (-65) 75).
  - left. reflexivity.
  - rewrite E. reflexivity.
Defined.

(** ** The crop box of [crop_and_darken] *)

Lemma Ztrunc_nonneg (x : R) : 0 <= x -> Ztrunc x = Zfloor x.
Proof.
  intros Hx. unfold Ztrunc. destruct (Rlt_dec x 0); [lra | reflexivity].
Qed.

Lemma py_int_IZR (z : Z) : py_int (IZR z) = z.
Proof. apply Ztrunc_IZR. Qed.

Lemma py_int_le (x y : R) : 0 <= x -> x <= y -> (py_int x <= py_int y)%Z.
Proof.
  intros Hx Hxy. unfold py_int.
  rewrite !Ztrunc_nonneg by lra. now apply Zfloor_le.
Qed.

Lemma py_int_bound (x : R) :
  0 <= x -> IZR (py_int x) <= x < IZR (py_int x) + 1.
Proof.
  intros Hx. unfold py_int. rewrite Ztrunc_nonneg by exact Hx.
  apply Zfloor_bound.
Qed.

Lemma scaled_range (a b : R) (n : Z) :
  0 <= a -> a <= b -> 0 < b -> (0 <= n)%Z ->
  0 <= a / b * IZR n <= IZR n.
Proof.
  intros Ha Hab Hb Hn. apply IZR_le in Hn.
  assert (Hq : 0 <= a / b <= 1).
  { split.
    - apply Rmult_le_pos; [exact Ha | left; now apply Rinv_0_lt_compat].
    - apply Rmult_le_reg_r with b; [exact Hb|].
      unfold Rdiv. rewrite Rmult_assoc, Rinv_l by lra. lra. }
  nra.
Qed.

(** X6.  For an image of size (w, h) and a region inside the globe with
    lon_min <= lon_max and lat_min <= lat_max, the crop box of
    [crop_and_darken] lies inside the image and is not inverted:
    0 <= px0 <= px1 <= w and 0 <= py0 <= py1 <= h. *)
Theorem crop_box_inside (w h : Z) (lon_min lon_max lat_min lat_max : R) :
  (0 <= w)%Z -> (0 <= h)%Z ->
  -180 <= lon_min -> lon_min <= lon_max -> lon_max <= 180 ->
  -90 <= lat_min -> lat_min <= lat_max -> lat_max <= 90 ->
  let '(px0, py0, px1, py1) :=
    crop_box w h lon_min lon_max lat_min lat_max in
  (0 <= px0 <= px1)%Z /\ (px1 <= w)%Z
  /\ (0 <= py0 <= py1)%Z /\ (py1 <= h)%Z.
Proof.
  intros Hw Hh L0 L1 L2 B0 B1 B2. unfold crop_box. cbv beta iota zeta.
  set (x0 := (lon_min + 180) / 360 * IZR w).
  set (x1 := (lon_max + 180) / 360 * IZR w).
  set (y0 := (90 - lat_max) / 180 * IZR h).
  set (y1 := (90 - lat_min) / 180 * IZR h).
  pose proof (IZR_le _ _ Hw) as Hw'. pose proof (IZR_le _ _ Hh) as Hh'.
  assert (X0 : 0 <= x0 <= IZR w) by (apply scaled_range; lra || lia).
  assert (X1 : 0 <= x1 <= IZR w) by (apply scaled_range; lra || lia).
  assert (Y0 : 0 <= y0 <= IZR h) by (apply scaled_range; lra || lia).
  assert (Y1 : 0 <= y1 <= IZR h) by (apply scaled_range; lra || lia).
  assert (X01 : x0 <= x1) by (unfold x0, x1; nra).
  assert (Y01 : y0 <= y1) by (unfold y0, y1; nra).
  repeat split.
  - rewrite <- (py_int_IZR 0). apply py_int_le; lra.
  - apply py_int_le; lra.
  - rewrite <- (py_int_IZR w). apply py_int_le; lra.
  - rewrite <- (py_int_IZR 0). apply py_int_le; lra.
  - apply py_int_le; lra.
  - rewrite <- (py_int_IZR h). apply py_int_le; lra.
Qed.

Lemma crop_box_inside_witness :
  let '(px0, py0, px1, py1) := crop_box 10800 5400 (-25) 45 34 72 in
  (0 <= px0 <= px1)%Z /\ (px1 <= 10800)%Z
  /\ (0 <= py0 <= py1)%Z /\ (py1 <= 5400)%Z.
Proof.
  pose proof (crop_box_inside 10800 5400 (-25) 45 34 72) as H.
  destruct (crop_box 10800 5400 (-25) 45 34 72) as [[[px0 py0] px1] py1].
  destruct H as [A [B [C D]]]; try lra; try lia.
Defined.

(** X7.  The crop box of the whole globe is the whole image:
    (0, 0, w, h), for every image size. *)
Theorem crop_box_whole_globe (w h : Z) :
  crop_box w h (-180) 180 (-90) 90 = (0%Z, 0%Z, w, h).
Proof.
  unfold crop_box.
  replace ((-180 + 180) / 360 * IZR w) with (IZR 0) by (simpl; field).
  replace ((180 + 180) / 360 * IZR w) with (IZR w) by field.
  replace ((90 - 90) / 180 * IZR h) with (IZR 0) by (simpl; field).
  replace ((90 - -90) / 180 * IZR h) with (IZR h) by field.
  now rewrite !py_int_IZR.
Qed.

(** ** [_download]: what reaches the destination file *)

Lemma read_loop_chunks (total : Z) (chunks : list bytes)
    (tail : list (result bytes)) (st : dl_state) :
  Forall (fun c => c <> []) chunks ->
  read_loop total (map Ok chunks ++ tail) st
  = read_loop total tail
      {| dest_file := dest_file st ++ concat chunks;
         downloaded := downloaded st + Z.of_nat (length (concat chunks));
         stdout := if (total =? 0)%Z then stdout st
                   else stdout st
                        ++ map (fun d => progress_line d total)
                               (cumulative (downloaded st) chunks) |}.
Proof.
  intros Hne. revert st.
  induction Hne as [| c chunks Hc _ IH]; intros st.
  - cbn [map app concat cumulative length]. destruct st as [f d o].
    cbn. rewrite app_nil_r, Z.add_0_r.
    destruct (total =? 0)%Z; [reflexivity | now rewrite app_nil_r].
  - cbn [map app concat cumulative].
    destruct c as [| b c]; [contradiction|].
    cbn [read_loop]. rewrite IH. cbn [dest_file downloaded stdout].
    f_equal. f_equal.
    + now rewrite app_assoc.
    + rewrite length_app, Nat2Z.inj_add. lia.
    + destruct (total =? 0)%Z; [reflexivity|].
      rewrite <- app_assoc. reflexivity.
Qed.

(** X8.  When the body arrives as non-empty chunks and then ends (the
    reads are exhausted or one returns no bytes), [_download] succeeds,
    the destination file holds exactly the chunks in order, nothing after
    the empty read is used, and one progress line is written per chunk,
    or none at all when the Content-Length is absent or zero, so that the
    percentage is never divided by zero. *)
Theorem download_writes_body (total : Z) (chunks : list bytes)
    (tail : list (result bytes)) :
  Forall (fun c => c <> []) chunks ->
  (tail = [] \/ exists rest, tail = Ok [] :: rest) ->
  _download (Response (Ok total) (map Ok chunks ++ tail))
  = (Some (concat chunks),
     if (total =? 0)%Z then []
     else map (fun d => progress_line d total) (cumulative 0 chunks),
     Ok tt).
Proof.
  intros Hne Htail. unfold _download.
  rewrite read_loop_chunks by exact Hne.
  cbn [dest_file downloaded stdout app].
  assert (E : forall st, read_loop total tail st = (st, Ok tt)).
  { intros st. destruct Htail as [-> | [rest ->]]; reflexivity. }
  rewrite E. cbn [dest_file stdout].
  destruct (total =? 0)%Z; reflexivity.
Qed.

Lemma download_writes_body_witness :
  _download (Response (Ok 0%Z)
               (map Ok [["a"%byte; "b"%byte]; ["c"%byte]]
                ++ [Ok []; Ok ["z"%byte]]))
  = (Some ["a"%byte; "b"%byte; "c"%byte], [], Ok tt).
Proof.
  apply (download_writes_body 0 [["a"%byte; "b"%byte]; ["c"%byte]]
           [Ok []; Ok ["z"%byte]]).
  - repeat constructor; discriminate.
  - right. now eexists.
Defined.



(** ** [_download]: the progress bar *)






(** ** [main]: the cache and the outputs *)

Section DriverFacts.

Variable decode : bytes -> result Image.
Variable encode : Image -> bytes.

Local Abbreviation settled := (Driver.settled decode encode).

Lemma put_same d name b : Driver.put d name b name = Some b.
Proof. unfold Driver.put. now rewrite String.eqb_refl. Qed.

Lemma put_other d name b n : n <> name -> Driver.put d name b n = d n.
Proof.
  intros Hn. unfold Driver.put.
  destruct (String.eqb n name) eqn:E; [|reflexivity].
  apply String.eqb_eq in E. contradiction.
Qed.

Lemma reproject_file_frame name lat_min lat_max s s1 r :
  Driver.reproject_file decode encode name lat_min lat_max s = (s1, r) ->
  Driver.cache s1 = Driver.cache s
  /\ Driver.fetched s1 = Driver.fetched s
  /\ forall n, n <> name -> Driver.public s1 n = Driver.public s n.
Proof.
  unfold Driver.reproject_file.
  destruct (Driver.cache s name) as [b |]; [|intros E; now inversion E].
  destruct (decode b) as [img | x]; [|intros E; now inversion E].
  destruct (snd (run (reproject img lat_min lat_max))) as [out | x];
    intros E; inversion E; subst; cbn; repeat split; try reflexivity.
  intros n Hn. now apply put_other.
Qed.

Lemma reproject_file_ok name lat_min lat_max s s1 :
  Driver.reproject_file decode encode name lat_min lat_max s = (s1, Ok tt) ->
  exists b img out,
    Driver.cache s name = Some b
    /\ decode b = Ok img
    /\ snd (run (reproject img lat_min lat_max)) = Ok out
    /\ Driver.public s1 name = Some (encode out).
Proof.
  unfold Driver.reproject_file.
  destruct (Driver.cache s name) as [b |]; [|discriminate].
  destruct (decode b) as [img | x] eqn:Ed; [|discriminate].
  destruct (snd (run (reproject img lat_min lat_max))) as [out | x] eqn:Er;
    [|discriminate].
  intros E. inversion E; subst. exists b, img, out. cbn.
  repeat split; try assumption. apply put_same.
Qed.

Lemma ensure_cached_frame net e s s1 r :
  Driver.ensure_cached net e s = (s1, r) ->
  Driver.public s1 = Driver.public s
  /\ (forall n b, Driver.cache s n = Some b -> Driver.cache s1 n = Some b)
  /\ (r = Ok tt -> Driver.cache s1 (Driver.filename e) <> None).
Proof.
  unfold Driver.ensure_cached.
  destruct (Driver.cache s (Driver.filename e)) as [b0 |] eqn:Ec.
  - intros E. inversion E; subst. repeat split; try tauto.
    intros _. congruence.
  - destruct (_download (net (Driver.url e))) as [[file lines] r0] eqn:Ed.
    intros E. inversion E; subst. cbn. split; [reflexivity|]. split.
    + intros n b Hn. destruct file as [b1 |]; [|exact Hn].
      rewrite put_other; [exact Hn|]. intros ->. congruence.
    + intros ->. unfold _download in Ed.
      destruct (net (Driver.url e)) as [x | [total | x] reads];
        try (inversion Ed; discriminate).
      destruct (read_loop _ _ _) as [st r1]. inversion Ed; subst.
      rewrite put_same. discriminate.
Qed.

Lemma process_frame net e s s1 r :
  Driver.process net decode encode e s = (s1, r) ->
  (forall n b, Driver.cache s n = Some b -> Driver.cache s1 n = Some b)
  /\ (forall n, n <> Driver.filename e ->
        Driver.public s1 n = Driver.public s n)
  /\ (r = Ok tt -> settled s1 e).
Proof.
  unfold Driver.process.
  destruct (Driver.ensure_cached net e s) as [s0 [[] | x]] eqn:Ee.
  - intros Er.
    destruct (ensure_cached_frame _ _ _ _ _ Ee) as [Hp [Hc _]].
    destruct (reproject_file_frame _ _ _ _ _ _ Er) as [Hc1 [_ Hp1]].
    split; [intros n b Hn; rewrite Hc1; now apply Hc|].
    split; [intros n Hn; rewrite Hp1, Hp by exact Hn; reflexivity|].
    intros ->.
    destruct (reproject_file_ok _ _ _ _ _ Er) as [b [img [out [A [B [C D]]]]]].
    exists b, img, out. rewrite Hc1. now repeat split.
  - intros E. inversion E; subst.
    destruct (ensure_cached_frame _ _ _ _ _ Ee) as [Hp [Hc _]].
    split; [exact Hc|]. split; [intros n _; now rewrite Hp|].
    discriminate.
Qed.

Lemma process_all_frame net es s s1 r :
  Driver.process_all net decode encode es s = (s1, r) ->
  (forall n b, Driver.cache s n = Some b -> Driver.cache s1 n = Some b)
  /\ (forall n, ~ In n (map Driver.filename es) ->
        Driver.public s1 n = Driver.public s n).
Proof.
  revert s. induction es as [| e es IH]; intros s; cbn [Driver.process_all].
  - intros E. inversion E; subst. split; auto.
  - destruct (Driver.process net decode encode e s) as [s0 [[] | x]] eqn:Ep.
    + intros Er. destruct (process_frame _ _ _ _ _ Ep) as [Hc [Hp _]].
      destruct (IH _ Er) as [Hc1 Hp1]. split.
      * intros n b Hn. now apply Hc1, Hc.
      * intros n Hn. cbn [map In] in Hn.
        rewrite Hp1 by tauto. apply Hp. intros ->. tauto.
    + intros E. inversion E; subst.
      destruct (process_frame _ _ _ _ _ Ep) as [Hc [Hp _]]. split; [exact Hc|].
      intros n Hn. cbn [map In] in Hn. apply Hp. intros ->. tauto.
Qed.

Lemma process_all_settled net es s s1 :
  NoDup (map Driver.filename es) ->
  Driver.process_all net decode encode es s = (s1, Ok tt) ->
  forall e, In e es -> settled s1 e.
Proof.
  revert s. induction es as [| e0 es IH]; intros s Hnd Hrun e He;
    [contradiction|].
  cbn [Driver.process_all] in Hrun. cbn [map] in Hnd.
  apply NoDup_cons_iff in Hnd. destruct Hnd as [Hnot Hnd].
  destruct (Driver.process net decode encode e0 s) as [s0 [[] | x]] eqn:Ep;
    [|discriminate].
  destruct He as [<- | He]; [|now apply (IH s0)].
  destruct (process_frame _ _ _ _ _ Ep) as [_ [_ Hs]].
  destruct (Hs eq_refl) as [b [img [out [A [B [C D]]]]]].
  destruct (process_all_frame _ _ _ _ _ Hrun) as [Hc Hp].
  exists b, img, out. repeat split; try assumption.
  - now apply Hc.
  - rewrite Hp by exact Hnot. exact D.
Qed.

(** A run over settled entries from any state that agrees with [s0]. *)
Lemma process_all_again net es s0 s :
  (forall e, In e es -> settled s0 e) ->
  (forall n, Driver.cache s n = Driver.cache s0 n) ->
  (forall n, Driver.public s n = Driver.public s0 n) ->
  Driver.fetched s = Driver.fetched s0 ->
  exists s2,
    Driver.process_all net decode encode es s = (s2, Ok tt)
    /\ (forall n, Driver.cache s2 n = Driver.cache s0 n)
    /\ (forall n, Driver.public s2 n = Driver.public s0 n)
    /\ Driver.fetched s2 = Driver.fetched s0.
Proof.
  revert s. induction es as [| e es IH]; intros s Hset Hc Hp Hf.
  - exists s. now repeat split.
  - destruct (Hset e (or_introl eq_refl)) as [b [img [out [A [B [C D]]]]]].
    cbn [Driver.process_all].
    unfold Driver.process, Driver.ensure_cached.
    rewrite Hc, A. unfold Driver.reproject_file. rewrite Hc, A, B, C.
    apply IH.
    + intros e' He'. apply Hset. now right.
    + exact Hc.
    + intros n. cbn. unfold Driver.put.
      destruct (String.eqb n (Driver.filename e)) eqn:E; [|apply Hp].
      apply String.eqb_eq in E. subst n. now rewrite D.
    + exact Hf.
Qed.

Lemma process_all_cached net es s :
  (forall e, In e es -> Driver.cache s (Driver.filename e) <> None) ->
  Driver.fetched (fst (Driver.process_all net decode encode es s))
  = Driver.fetched s
  /\ Driver.cache (fst (Driver.process_all net decode encode es s))
     = Driver.cache s.
Proof.
  revert s. induction es as [| e es IH]; intros s Hall;
    cbn [Driver.process_all]; [now split|].
  assert (He : Driver.cache s (Driver.filename e) <> None)
    by (apply Hall; now left).
  unfold Driver.process, Driver.ensure_cached.
  destruct (Driver.cache s (Driver.filename e)) as [b |] eqn:Ec;
    [|contradiction].
  destruct (Driver.reproject_file decode encode _ _ _ s) as [s0 r] eqn:Er.
  destruct (reproject_file_frame _ _ _ _ _ _ Er) as [Hc [Hf _]].
  destruct r as [[] | x]; cbn [fst]; [|now split].
  destruct (IH s0) as [If Ic].
  - intros e' He'. rewrite Hc. apply Hall. now right.
  - rewrite If, Ic. now split.
Qed.

End DriverFacts.

Lemma FILES_filenames_distinct : NoDup (map Driver.filename Driver.FILES).
Proof.
  cbn. repeat constructor; cbn; intros H;
    repeat (destruct H as [H | H]; [discriminate|]); exact H.
Qed.

Lemma FILES_interior :
  Forall (fun e => -90 < Driver.lat_min e /\ Driver.lat_min e < Driver.lat_max e
                   /\ Driver.lat_max e < 90) Driver.FILES.
Proof. unfold Driver.FILES. repeat constructor; cbn; lra. Qed.

Lemma reproject_shape (img out : Image) (lat_min lat_max : R) :
  snd (run (reproject img lat_min lat_max)) = Ok out ->
  shape (pixels out) = shape (pixels img).
Proof.
  intros Hout.
  destruct (reproject_returns img lat_min lat_max out Hout) as [m [M ->]].
  rewrite pixels_output_file. unfold shape, gathered. cbn [rows row_shape].
  now rewrite length_map, y_src_length, Nat2Z.id.
Qed.

(** X11.  When every file of [FILES] is already in the cache directory,
    [main] requests nothing from the network and leaves the cache as it
    is, whatever the outcome of the reprojections. *)
Theorem main_uses_cache (net : string -> response)
    (decode : bytes -> result Image) (encode : Image -> bytes)
    (s : Driver.dirs) :
  (forall e, In e Driver.FILES ->
     Driver.cache s (Driver.filename e) <> None) ->
  Driver.fetched (fst (Driver.main net decode encode s)) = Driver.fetched s
  /\ Driver.cache (fst (Driver.main net decode encode s)) = Driver.cache s.
Proof. intros Hall. now apply process_all_cached. Qed.

Lemma main_uses_cache_witness :
  Driver.fetched
    (fst (Driver.main (fun _ => UrlError "URLError")
            (fun _ => Raise "OSError") (fun _ => [])
            {| Driver.cache := fun _ => Some [];
               Driver.public := fun _ => None;
               Driver.fetched := [] |}))
  = [].
Proof.
  apply (main_uses_cache (fun _ => UrlError "URLError")
           (fun _ => Raise "OSError") (fun _ => [])
           {| Driver.cache := fun _ => Some [];
              Driver.public := fun _ => None;
              Driver.fetched := [] |}).
  intros e _. discriminate.
Defined.

(** X12.  Running the script again after a successful run downloads
    nothing, succeeds whatever the network does, and leaves the cache and
    every output file as the first run left them. *)
Theorem main_rerun (net net' : string -> response)
    (decode : bytes -> result Image) (encode : Image -> bytes)
    (s s1 : Driver.dirs) :
  Driver.main net decode encode s = (s1, Ok tt) ->
  exists s2,
    Driver.main net' decode encode s1 = (s2, Ok tt)
    /\ Driver.fetched s2 = Driver.fetched s1
    /\ (forall n, Driver.cache s2 n = Driver.cache s1 n)
    /\ (forall n, Driver.public s2 n = Driver.public s1 n).
Proof.
  intros Hrun.
  pose proof (process_all_settled decode encode net Driver.FILES s s1
                FILES_filenames_distinct Hrun) as Hset.
  destruct (process_all_again decode encode net' Driver.FILES s1 s1 Hset)
    as [s2 [E [Hc [Hp Hf]]]]; try reflexivity.
  exists s2. now repeat split.
Qed.

(** X13.  After a successful run of [main], for every entry of [FILES]
    the cache holds a file that decodes, and the output directory holds,
    under the same file name, the encoding of what [reproject] returns on
    that image with the entry's lat_min and lat_max; the output has the
    shape of the cached image. *)
Theorem main_outputs (net : string -> response)
    (decode : bytes -> result Image) (encode : Image -> bytes)
    (s s1 : Driver.dirs) :
  Driver.main net decode encode s = (s1, Ok tt) ->
  forall e, In e Driver.FILES ->
    exists b img out,
      Driver.cache s1 (Driver.filename e) = Some b
      /\ decode b = Ok img
      /\ snd (run (reproject img (Driver.lat_min e) (Driver.lat_max e)))
         = Ok out
      /\ Driver.public s1 (Driver.filename e) = Some (encode out)
      /\ shape (pixels out) = shape (pixels img).
Proof.
  intros Hrun e He.
  destruct (process_all_settled decode encode net Driver.FILES s s1
              FILES_filenames_distinct Hrun e He)
    as [b [img [out [A [B [C D]]]]]].
  exists b, img, out. repeat split; try assumption.
  exact (reproject_shape img out _ _ C).
Qed.

Section DriverTotal.

Variable net : string -> response.
Variable decode : bytes -> result Image.
Variable encode : Image -> bytes.

Lemma process_succeeds (e : Driver.entry) (s : Driver.dirs) :
  -90 < Driver.lat_min e < 90 -> -90 < Driver.lat_max e < 90 ->
  Driver.obtainable net decode s e ->
  exists s1,
    Driver.process net decode encode e s = (s1, Ok tt)
    /\ forall n, n <> Driver.filename e ->
         Driver.cache s1 n = Driver.cache s n.
Proof.
  intros Hmin Hmax Hob. unfold Driver.obtainable in Hob.
  unfold Driver.process, Driver.ensure_cached.
  destruct (Driver.cache s (Driver.filename e)) as [b |] eqn:Ec.
  - destruct Hob as [img Hd].
    unfold Driver.reproject_file. rewrite Ec, Hd.
    destruct (reproject_interior img _ _ Hmin Hmax) as [m [M [_ [_ E]]]].
    cbv zeta in E. rewrite E. cbn [snd]. eexists. split; [reflexivity|].
    reflexivity.
  - destruct Hob as [total [chunks [img [Hn [Hne Hd]]]]].
    rewrite Hn.
    pose proof (download_writes_body total chunks [] Hne (or_introl eq_refl))
      as Ed.
    rewrite app_nil_r in Ed. rewrite Ed.
    unfold Driver.reproject_file. cbn [Driver.cache].
    rewrite put_same, Hd.
    destruct (reproject_interior img _ _ Hmin Hmax) as [m [M [_ [_ E]]]].
    cbv zeta in E. rewrite E. cbn [snd]. eexists. split; [reflexivity|].
    intros n Hn'. cbn [Driver.cache]. now apply put_other.
Qed.

Lemma process_all_succeeds (es : list Driver.entry) (s : Driver.dirs) :
  NoDup (map Driver.filename es) ->
  Forall (fun e => -90 < Driver.lat_min e /\ Driver.lat_min e < Driver.lat_max e
                   /\ Driver.lat_max e < 90) es ->
  (forall e, In e es -> Driver.obtainable net decode s e) ->
  exists s1, Driver.process_all net decode encode es s = (s1, Ok tt).
Proof.
  revert s. induction es as [| e es IH]; intros s Hnd Hint Hob.
  - now exists s.
  - cbn [map] in Hnd. apply NoDup_cons_iff in Hnd. destruct Hnd as [Hnot Hnd].
    inversion Hint as [| e' es' He Hes]; subst.
    destruct (process_succeeds e s) as [s0 [Ep Hc]];
      [lra | lra | apply Hob; now left |].
    cbn [Driver.process_all]. rewrite Ep.
    apply IH; try assumption.
    intros e1 He1. unfold Driver.obtainable.
    rewrite Hc.
    + apply Hob. now right.
    + intros Heq. apply Hnot. rewrite <- Heq. now apply in_map.
Qed.

End DriverTotal.

Lemma main_rerun_witness :
  exists s1 s2,
    Driver.main (fun _ => Response (Ok 0%Z) [])
      (fun _ => Ok two_row_image) (fun _ => [])
      {| Driver.cache := fun _ => None; Driver.public := fun _ => None;
         Driver.fetched := [] |} = (s1, Ok tt)
    /\ Driver.main (fun _ => UrlError "URLError")
         (fun _ => Ok two_row_image) (fun _ => []) s1 = (s2, Ok tt)
    /\ Driver.fetched s2 = Driver.fetched s1.
Proof.
  destruct (process_all_succeeds (fun _ => Response (Ok 0%Z) [])
              (fun _ => Ok two_row_image) (fun _ => []) Driver.FILES
              {| Driver.cache := fun _ => None; Driver.public := fun _ => None;
                 Driver.fetched := [] |}
              FILES_filenames_distinct FILES_interior) as [s1 E1].
  { intros e _. exists 0%Z, [], two_row_image. repeat split. constructor. }
  destruct (main_rerun (fun _ => Response (Ok 0%Z) [])
              (fun _ => UrlError "URLError")
              (fun _ => Ok two_row_image) (fun _ => []) _ s1 E1)
    as [s2 [E2 [F _]]].
  exists s1, s2. split; [exact E1|]. split; [exact E2 | exact F].
Defined.

Lemma main_outputs_witness :
  exists s1 out,
    Driver.main (fun _ => Response (Ok 0%Z) [])
      (fun _ => Ok two_row_image) (fun _ => [])
      {| Driver.cache := fun _ => None; Driver.public := fun _ => None;
         Driver.fetched := [] |} = (s1, Ok tt)
    /\ Driver.public s1 "Europe2024.png" = Some []
    /\ shape (pixels out) = [2; 3]%nat.
Proof.
  destruct (process_all_succeeds (fun _ => Response (Ok 0%Z) [])
              (fun _ => Ok two_row_image) (fun _ => []) Driver.FILES
              {| Driver.cache := fun _ => None; Driver.public := fun _ => None;
                 Driver.fetched := [] |}
              FILES_filenames_distinct FILES_interior) as [s1 E1].
  { intros e _. exists 0%Z, [], two_row_image. repeat split. constructor. }
  destruct (main_outputs _ _ _ _ s1 E1 (nth 3 Driver.FILES (nth 0 Driver.FILES
              (Driver.Build_entry "" "" "" 0 0))))
    as [b [img [out [_ [B [_ [D S]]]]]]].
  { cbn. tauto. }
  injection B as <-.
  exists s1, out. split; [exact E1|]. split; [exact D | exact S].
Defined.





(** ** The south pole in binary64 *)

(** X17.  In binary64 arithmetic the argument that [_merc_y(-90.0)] hands
    to [math.tan] is exactly 0.0, so with a tangent that maps 0.0 to 0.0
    the call raises ValueError whatever [math.log] is. *)
Theorem binary64_south_pole (libm_tan libm_log : float -> float) :
  libm_tan 0%float = 0%float ->
  (Binary64.pi / 4 + Binary64.radians (-90) / 2)%float = 0%float
  /\ Binary64._merc_y libm_tan libm_log (-90)%float = Raise "ValueError".
Proof.
  intros Ht. split; [reflexivity|].
  unfold Binary64._merc_y.
  change (Binary64.pi / 4 + Binary64.radians (-90) / 2)%float with 0%float.
  rewrite Ht. reflexivity.
Qed.

Lemma binary64_south_pole_witness :
  Binary64._merc_y (fun x => x) (fun x => x) (-90)%float = Raise "ValueError".
Proof.
  apply (binary64_south_pole (fun x => x) (fun x => x)). reflexivity.
Defined.

(** ** The north pole in binary64 *)

(** X18.  In binary64 arithmetic the argument that [_merc_y(90.0)] hands
    to [math.tan] is the double nearest to pi/2, and so is the argument
    for the next double above 90.0; with a tangent that is positive
    there (glibc gives 0x1.d02967c31cdb5p+53), both calls return the
    logarithm of that value instead of raising. *)
Theorem binary64_north_pole (libm_tan libm_log : float -> float) :
  libm_tan 0x1.921fb54442d18p+0%float = 0x1.d02967c31cdb5p+53%float ->
  (Binary64.pi / 4 + Binary64.radians 90 / 2)%float
  = 0x1.921fb54442d18p+0%float
  /\ (Binary64.pi / 4 + Binary64.radians 0x1.6800000000001p+6 / 2)%float
     = 0x1.921fb54442d18p+0%float
  /\ Binary64._merc_y libm_tan libm_log 90%float
     = Ok (libm_log 0x1.d02967c31cdb5p+53%float)
  /\ Binary64._merc_y libm_tan libm_log 0x1.6800000000001p+6%float
     = Ok (libm_log 0x1.d02967c31cdb5p+53%float).
Proof.
  intros Ht.
  split; [reflexivity|]. split; [reflexivity|].
  unfold Binary64._merc_y.
  change (Binary64.pi / 4 + Binary64.radians 90 / 2)%float
    with 0x1.921fb54442d18p+0%float.
  change (Binary64.pi / 4 + Binary64.radians 0x1.6800000000001p+6 / 2)%float
    with 0x1.921fb54442d18p+0%float.
  rewrite Ht. split; reflexivity.
Qed.

Lemma binary64_north_pole_witness :
  Binary64._merc_y (fun _ => 0x1.d02967c31cdb5p+53%float) (fun x => x)
    90%float
  = Ok 0x1.d02967c31cdb5p+53%float.
Proof.
  apply (binary64_north_pole (fun _ => 0x1.d02967c31cdb5p+53%float)
           (fun x => x)).
  reflexivity.
Defined.
